(** * styled-jsx language server: extraction and masking core

    A shallow embedding of [styled-jsx-utils.ts] (scanner, template locator,
    character-preserving masker) and of [styled-jsx-server-main.ts] (the
    request handlers, the validation timers and the document settings), with
    the properties of the written specification stated on them and proved, or
    refuted on a sample file, and further properties of the code.

    JavaScript strings are sequences of UTF-16 code units; offsets are
    JavaScript numbers restricted to the integers.  The TypeScript parser and
    the CSS language service are external libraries: the first is a function
    from text to a syntax tree, the second a record of functions. *)

From Stdlib Require Import ZArith NArith String Ascii Lia.
From stdpp Require Import base tactics option list strings gmap.

Set Default Proof Using "Type".
Local Open Scope Z_scope.

(** ** JavaScript strings *)

Abbreviation CodeUnit := N (only parsing).
Abbreviation JsString := (list N) (only parsing).

(** A string literal of the source, as code units. *)
Definition lit (s : string) : JsString :=
  map N_of_ascii (list_ascii_of_string s).

Definition SPACE : CodeUnit := 32%N.

(** LineTerminator of ECMAScript: LF, CR, LS, PS.  The [.] of a regular
    expression without the [s] flag matches every code unit but these. *)
Definition isLineTerminator (u : CodeUnit) : bool :=
  (u =? 10)%N || (u =? 13)%N || (u =? 8232)%N || (u =? 8233)%N.

(** WhiteSpace and LineTerminator, the class [\s]. *)
Definition isWhiteSpace (u : CodeUnit) : bool :=
  ((9 <=? u) && (u <=? 13))%N || (u =? 32)%N || (u =? 160)%N || (u =? 5760)%N
  || ((8192 <=? u) && (u <=? 8202))%N || (u =? 8232)%N || (u =? 8233)%N
  || (u =? 8239)%N || (u =? 8287)%N || (u =? 12288)%N || (u =? 65279)%N.

(** [String.prototype.slice]: a negative index counts from the end, both
    indices are clamped to the string, an empty range gives the empty
    string. *)
Definition relativeIndex (len i : Z) : Z :=
  if i <? 0 then Z.max (len + i) 0 else Z.min i len.

Definition slice (s : JsString) (from to : Z) : JsString :=
  let len := Z.of_nat (length s) in
  let a := relativeIndex len from in
  let b := relativeIndex len to in
  if b <=? a then [] else take (Z.to_nat (b - a)) (drop (Z.to_nat a) s).

(** [String.prototype.includes], by scanning every start position. *)
Fixpoint startsWith (p s : JsString) : bool :=
  match p, s with
  | [], _ => true
  | _ :: _, [] => false
  | a :: p', b :: s' => (a =? b)%N && startsWith p' s'
  end.

Fixpoint includes (s p : JsString) : bool :=
  startsWith p s || match s with [] => false | _ :: s' => includes s' p end.

Definition strEq (a b : JsString) : bool := bool_decide (a = b).

(** ** Exceptions *)

Inductive Error :=
| TypeError (msg : string)   (* property access on [undefined] *)
| HostError (stack : string) (* an error raised inside the parser library *).

Inductive Completion (A : Type) :=
| Normal (a : A)
| Throw (e : Error).
Arguments Normal {A} a.
Arguments Throw {A} e.

#[global] Instance Completion_ret : MRet Completion := fun _ a => Normal a.
#[global] Instance Completion_bind : MBind Completion := fun _ _ k m =>
  match m with
  | Normal a => k a
  | Throw e => Throw e
  end.
#[global] Instance Completion_fmap : FMap Completion := fun _ _ f m =>
  match m with
  | Normal a => Normal (f a)
  | Throw e => Throw e
  end.

(** ** Regular expressions

    The three patterns of the source use literals, [.], [\s], sequence,
    alternation, [*], [*?], [?] and capture groups.  The matcher is the
    backtracking matcher of ECMAScript in continuation-passing style.  No
    pattern of the source has a capture group under a [*], so the reset of
    captures at each iteration is left out. *)

Inductive Regex :=
| RLit (s : JsString)
| RDot
| RSpace
| RSeq (r1 r2 : Regex)
| RAlt (r1 r2 : Regex)
| RStar (greedy : bool) (r : Regex)
| ROpt (greedy : bool) (r : Regex)
| RGroup (i : nat) (r : Regex).

Record MatchState := mkState {
  endIndex : nat;
  rest : JsString;
  captures : list (nat * JsString)
}.

Definition advance (x : MatchState) (n : nat) : MatchState :=
  mkState (endIndex x + n) (drop n (rest x)) (captures x).

Definition setCapture (i : nat) (x y : MatchState) : MatchState :=
  mkState (endIndex y) (rest y)
          ((i, take (endIndex y - endIndex x) (rest x)) :: captures y).

Fixpoint capture (i : nat) (cs : list (nat * JsString)) : option JsString :=
  match cs with
  | [] => None
  | (j, s) :: cs' => if Nat.eqb i j then Some s else capture i cs'
  end.

Definition Continuation := MatchState -> option MatchState.

(** [RepeatMatcher] for [{0,}] and [{0,1}]: [fuel] bounds the number of
    iterations, an iteration that consumes nothing is rejected, a greedy
    quantifier tries one more iteration before it goes on, a lazy one
    after.  Every iteration consumes a unit, so the length of the input left
    never cuts a [*] short. *)
Fixpoint repeatMatcher (m : MatchState -> Continuation -> option MatchState)
    (greedy : bool) (c : Continuation) (fuel : nat) (x : MatchState)
  : option MatchState :=
  match fuel with
  | O => c x
  | S fuel' =>
      let again (_ : unit) :=
        m x (fun y =>
          if Nat.eqb (endIndex y) (endIndex x) then None
          else repeatMatcher m greedy c fuel' y) in
      if greedy then
        match again tt with Some z => Some z | None => c x end
      else
        match c x with Some z => Some z | None => again tt end
  end.

Fixpoint matcher (r : Regex) (x : MatchState) (c : Continuation)
  {struct r} : option MatchState :=
  match r with
  | RLit s =>
      if startsWith s (rest x) then c (advance x (length s)) else None
  | RDot =>
      match rest x with
      | u :: _ => if isLineTerminator u then None else c (advance x 1)
      | [] => None
      end
  | RSpace =>
      match rest x with
      | u :: _ => if isWhiteSpace u then c (advance x 1) else None
      | [] => None
      end
  | RSeq r1 r2 => matcher r1 x (fun y => matcher r2 y c)
  | RAlt r1 r2 =>
      match matcher r1 x c with
      | Some z => Some z
      | None => matcher r2 x c
      end
  | RStar greedy r1 => repeatMatcher (matcher r1) greedy c (S (length (rest x))) x
  | ROpt greedy r1 => repeatMatcher (matcher r1) greedy c 1 x
  | RGroup i r1 => matcher r1 x (fun y => c (setCapture i x y))
  end.

(** One successful [exec]: the units skipped before the match, the index of
    the match, the matched text, the captures and what follows. *)
Record MatchResult := mkResult {
  skipped : JsString;
  matchIndex : nat;
  matched : JsString;
  groups : list (nat * JsString);
  lastIndex : nat;
  after : JsString
}.

(** [RegExpBuiltinExec] from [lastIndex = i], where [s] is the input from
    [i] on: the first start position at which the pattern matches. *)
Fixpoint exec (r : Regex) (i : nat) (s : JsString) : option MatchResult :=
  match matcher r (mkState i s []) Some with
  | Some y =>
      Some (mkResult [] i (take (endIndex y - i) s) (captures y)
                     (endIndex y) (rest y))
  | None =>
      match s with
      | [] => None
      | u :: s' =>
          match exec r (S i) s' with
          | Some m =>
              Some (mkResult (u :: skipped m) (matchIndex m) (matched m) (groups m)
                             (lastIndex m) (after m))
          | None => None
          end
      end
  end.

(** [String.prototype.replace] with a global pattern and a replacement
    function of the matched text and the captures.  Every match is replaced
    from left to right; after an empty match the scan moves one unit on.  An
    exception of the replacement function ends the call.  [i] is the index
    of [s] in the whole string; a match consumes at least one unit or the
    scan steps over one, so [S (length s)] rounds are enough. *)
Definition Replacer := JsString -> list (nat * JsString) -> Completion JsString.

Fixpoint replaceFrom (fuel : nat) (r : Regex) (f : Replacer) (i : nat)
    (s : JsString) : Completion JsString :=
  match fuel with
  | O => Normal s
  | S fuel' =>
      match exec r i s with
      | None => Normal s
      | Some m =>
          rep ← f (matched m) (groups m);
          tail ←
            (if Nat.eqb (lastIndex m) (matchIndex m) then
               match after m with
               | [] => Normal []
               | u :: s' =>
                   t ← replaceFrom fuel' r f (S (lastIndex m)) s';
                   Normal (u :: t)
               end
             else replaceFrom fuel' r f (lastIndex m) (after m));
          Normal (skipped m ++ rep ++ tail)
      end
  end.

Definition replace (r : Regex) (f : Replacer) (s : JsString) : Completion JsString :=
  replaceFrom (S (length s)) r f 0 s.

(** A replacement string without [$]: every match becomes that string. *)
Definition withString (str : JsString) : Replacer := fun _ _ => Normal str.

(** [String.prototype.substring], used by [Node.getText]. *)
Definition substring (s : JsString) (from to : Z) : JsString :=
  let len := Z.of_nat (length s) in
  let a := Z.min (Z.max from 0) len in
  let b := Z.min (Z.max to 0) len in
  take (Z.to_nat (Z.max a b - Z.min a b)) (drop (Z.to_nat (Z.min a b)) s).

(** ** Documents *)

Record TextDocument := mkDocument {
  uri : string;
  languageId : string;
  version : Z;
  getText : JsString
}.

(** [TextDocument.create(uri, languageId, version, content)] *)
Definition TextDocument_create (u l : string) (v : Z) (content : JsString) :=
  mkDocument u l v content.

Record StyledJsxTaggedTemplate := mkTemplate {
  start : Z;
  end_ : Z
}.

#[global] Instance StyledJsxTaggedTemplate_eq_dec : EqDecision StyledJsxTaggedTemplate.
Proof. solve_decision. Defined.

(** ** Candidate-offset scanner *)

Definition lazySpaces : Regex := RStar false RSpace.
Definition rseq (rs : list Regex) : Regex := foldr RSeq (RLit []) rs.

(** [/((<\s*?style\s*?(global)?\s*?jsx\s*?(global)?\s*?>)|(\s*?css\s*?`)|(\s*?css\.global\s*?`)|(\s*?css\.resolve\s*?`))/g] *)
Definition styledJsxPattern : Regex :=
  RGroup 1
    (RAlt (RGroup 2 (rseq [RLit (lit "<"); lazySpaces; RLit (lit "style");
                           lazySpaces; ROpt true (RGroup 3 (RLit (lit "global")));
                           lazySpaces; RLit (lit "jsx"); lazySpaces;
                           ROpt true (RGroup 4 (RLit (lit "global")));
                           lazySpaces; RLit (lit ">")]))
    (RAlt (RGroup 5 (rseq [lazySpaces; RLit (lit "css"); lazySpaces; RLit (lit "`")]))
    (RAlt (RGroup 6 (rseq [lazySpaces; RLit (lit "css.global"); lazySpaces;
                           RLit (lit "`")]))
          (RGroup 7 (rseq [lazySpaces; RLit (lit "css.resolve"); lazySpaces;
                           RLit (lit "`")]))))).

(** [RegExp.prototype.exec] of a global pattern whose [lastIndex] is [i]. *)
Definition execAt (r : Regex) (doc : JsString) (i : nat) : option MatchResult :=
  if Nat.ltb (length doc) i then None else exec r i (drop i doc).

(** [while (styledJsxPattern.exec(doc)) results.push(styledJsxPattern.lastIndex)].
    The pattern is one object shared by all calls: the loop carries its
    [lastIndex] and returns it next to the results.  A failed [exec] resets
    it to 0. *)
Fixpoint scanLoop (fuel : nat) (doc : JsString) (i : nat) (results : list Z)
  : list Z * nat :=
  match fuel with
  | O => (results, i)
  | S fuel' =>
      match execAt styledJsxPattern doc i with
      | None => (results, O)
      | Some m => scanLoop fuel' doc (lastIndex m) (results ++ [Z.of_nat (lastIndex m)])
      end
  end.

(** The loop only ends on a failed [exec], so every call finds [lastIndex]
    at 0, where the module created it (lemma [scanLoop_resets]). *)
Definition getApproximateStyledJsxOffsets (document : TextDocument) : list Z :=
  (scanLoop (S (length (getText document))) (getText document) O []).1.

(** ** Syntax trees of the TypeScript parser *)

Inductive SyntaxKind :=
| EndOfFileToken
| SingleLineCommentTrivia
| MultiLineCommentTrivia
| NoSubstitutionTemplateLiteral
| TemplateHead
| TemplateMiddle
| TemplateTail
| Identifier
| OtherToken      (* literals, punctuation, keywords, JSX text *)
| JSDocComment
| TemplateExpression
| TemplateSpan
| TaggedTemplateExpression
| JsxElement
| JsxOpeningElement
| JsxClosingElement
| JsxAttributes
| JsxAttribute
| JsxSpreadAttribute
| JsxExpression
| SourceFile
| OtherNode.

#[global] Instance SyntaxKind_eq_dec : EqDecision SyntaxKind.
Proof. solve_decision. Defined.

(** A node: its kind, [getStart()] and [getEnd()], the children that
    [forEachChild] visits in order, and the error that [forEachChild] raises
    after visiting them, if any. *)
Unset Elimination Schemes.
Inductive Node := mkNode {
  kind : SyntaxKind;
  getStart : Z;
  getEnd : Z;
  children : list Node;
  childFault : option string
}.
Set Elimination Schemes.

(** A node together with its chain of parents, nearest first: the parser
    is called with [setParentNodes = true]. *)
Record Located := mkLocated {
  self : Node;
  ancestors : list Node
}.

Definition parent (n : Located) : option Located :=
  match ancestors n with
  | [] => None
  | p :: ps => Some (mkLocated p ps)
  end.

Definition child (n : Located) (c : Node) : Located :=
  mkLocated c (self n :: ancestors n).

Definition hasKind (k : SyntaxKind) (n : Located) : bool := bool_decide (kind (self n) = k).

(** [ts.isToken]: kinds between [FirstToken] and [LastToken]. *)
Definition isToken (n : Located) : bool :=
  match kind (self n) with
  | EndOfFileToken | SingleLineCommentTrivia | MultiLineCommentTrivia
  | NoSubstitutionTemplateLiteral | TemplateHead | TemplateMiddle
  | TemplateTail | Identifier | OtherToken => true
  | _ => false
  end.

Definition isTemplateHead := hasKind TemplateHead.
Definition isTemplateLiteral (n : Located) : bool :=
  hasKind TemplateExpression n || hasKind NoSubstitutionTemplateLiteral n.
Definition isTaggedTemplateExpression := hasKind TaggedTemplateExpression.
Definition isJsxExpression := hasKind JsxExpression.
Definition isJsxElement := hasKind JsxElement.
Definition isJSDoc := hasKind JSDocComment.

(** Named fields, by their place among the children of [forEachChild]:
    [tag] comes first in a tagged template, [openingElement] first in a JSX
    element, [tagName] first and [attributes] after it in an opening element,
    [name] first in a JSX attribute; a spread attribute has no [name]. *)
Definition firstChild (n : Located) : option Located :=
  child n <$> head (children (self n)).

Definition tag := firstChild.
Definition openingElement := firstChild.
Definition tagName := firstChild.
Definition attributes (n : Located) : option Located :=
  child n <$> head (filter (λ c, kind c = JsxAttributes) (children (self n))).
Definition properties (n : Located) : list Located :=
  child n <$> children (self n).
Definition name (n : Located) : option Located :=
  if hasKind JsxAttribute n then firstChild n else None.

(** [node.getText()] in the file whose text is [text]. *)
Definition nodeText (text : JsString) (n : Located) : JsString :=
  substring text (getStart (self n)) (getEnd (self n)).

(** Reading a property of [undefined] raises a [TypeError]. *)
Definition defined {A} (what : string) (o : option A) : Completion A :=
  match o with
  | Some a => Normal a
  | None => Throw (TypeError what)
  end.

(** ** Template locator *)

(** [getTemplateString]: the template literal a token opens, if any. *)
Definition getTemplateString (node : Located) : option Located :=
  if isTemplateHead node || isTemplateLiteral node then
    if isTemplateHead node then parent node else Some node
  else None.

(** [isStyledJsxTaggedTemplate]: the tag of the enclosing tagged template
    contains [css]. *)
Definition isStyledJsxTaggedTemplate (text : JsString) (templateNode : Located)
  : Completion bool :=
  parent ← defined "kind" (parent templateNode);
  if isTaggedTemplateExpression parent then
    tag ← defined "getText" (tag parent);
    if includes (nodeText text tag) (lit "css") then Normal true else Normal false
  else Normal false.

(** [isStyledJsxTemplate]: the template is the expression of a JSX
    expression container directly inside [<style jsx>]. *)
Definition isStyledJsxTemplate (text : JsString) (node : Located) : Completion bool :=
  parent_ ← defined "kind" (parent node);
  if negb (isJsxExpression parent_) then Normal false else
  grandparent ← defined "kind" (parent parent_);
  if negb (isJsxElement grandparent) then Normal false else
  opener ← defined "tagName" (openingElement grandparent);
  tagName ← defined "getText" (tagName opener);
  if negb (strEq (nodeText text tagName) (lit "style")) then Normal false else
  attributes ← defined "properties" (attributes opener);
  Normal (existsb (λ prop,
            match name prop with
            | Some n => strEq (nodeText text n) (lit "jsx")
            | None => false
            end) (properties attributes)).

(** What the traversal changes: the array [templates] and the console. *)
Record WalkState := mkWalk {
  templates : list StyledJsxTaggedTemplate;
  console : list string
}.

Definition push (t : StyledJsxTaggedTemplate) (st : WalkState) : WalkState :=
  mkWalk (templates st ++ [t]) (console st).

Definition consoleLog (line : string) (st : WalkState) : WalkState :=
  mkWalk (templates st) (console st ++ [line]).

Definition stack (e : Error) : string :=
  match e with
  | TypeError msg => msg
  | HostError s => s
  end.

Definition Effect := WalkState -> WalkState * Completion unit.

(** [node.forEachChild(cb)]: [cb] on each child in order, an exception of
    [cb] ends the iteration; then the fault of the node itself, if any. *)
Definition forEachChild (cb : Node -> Effect) : list Node -> option string -> Effect :=
  fix each (cs : list Node) (fault : option string) (st : WalkState) :=
    match cs with
    | [] =>
        (st, match fault with
             | Some s => Throw (HostError s)
             | None => Normal tt
             end)
    | c :: cs' =>
        match cb c st with
        | (st', Normal _) => each cs' fault st'
        | (st', Throw e) => (st', Throw e)
        end
    end.

(** [walk]: comments and JSDoc are skipped, a token other than the end of
    file goes to the callback, any other node has its children walked
    inside [try { ... } catch (e) { console.log(e.stack) }]. *)
Fixpoint walk (callback : Located -> Effect) (anc : list Node) (n : Node)
    {struct n} : Effect :=
  fun st =>
  let node := mkLocated n anc in
  if isJSDoc node || hasKind MultiLineCommentTrivia node
     || hasKind SingleLineCommentTrivia node then (st, Normal tt)
  else if isToken node && negb (hasKind EndOfFileToken node) then callback node st
  else
    match forEachChild (walk callback (n :: anc)) (children n) (childFault n) st with
    | (st', Normal _) => (st', Normal tt)
    | (st', Throw e) => (consoleLog (stack e) st', Normal tt)
    end.

Inductive ScriptKind := Unknown | JS | JSX | TS | TSX.

Definition getScriptKind (document : TextDocument) : ScriptKind :=
  if String.eqb (languageId document) "typescriptreact" then TSX
  else if String.eqb (languageId document) "typescript" then TS
  else if String.eqb (languageId document) "javascriptreact" then JSX
  else if String.eqb (languageId document) "javascript" then JS
  else Unknown.

(** What the parser builds for a file: the children of the [SourceFile]
    node and the fault of its [forEachChild].  [ts.createSourceFile] is a
    function of the file name, the text and the script kind. *)
Record ParsedFile := mkParsed {
  fileChildren : list Node;
  fileFault : option string
}.

Definition Parser := string -> JsString -> ScriptKind -> ParsedFile.

Definition sourceFile (text : JsString) (p : ParsedFile) : Node :=
  mkNode SourceFile 0 (Z.of_nat (length text)) (fileChildren p) (fileFault p).

(** The callback of [findStyledJsxTaggedTemplate]. *)
Definition collect (text : JsString) (node : Located) : Effect :=
  fun st =>
  match getTemplateString node with
  | None => (st, Normal tt)
  | Some templateNode =>
      match (a ← isStyledJsxTaggedTemplate text templateNode;
             if a : bool then Normal true else isStyledJsxTemplate text templateNode) with
      | Normal true =>
          (push (mkTemplate (getStart (self templateNode) + 1)
                            (getEnd (self templateNode) - 1)) st, Normal tt)
      | Normal false => (st, Normal tt)
      | Throw e => (st, Throw e)
      end
  end.

(** The traversal of [findStyledJsxTaggedTemplate], from an empty
    [templates] array, with what it leaves in the console. *)
Definition traverse (createSourceFile : Parser) (textDocument : TextDocument)
  : WalkState * Completion unit :=
  let source := sourceFile (getText textDocument)
                  (createSourceFile "tmp" (getText textDocument)
                                    (getScriptKind textDocument)) in
  walk (collect (getText textDocument)) [] source (mkWalk [] []).

Definition findStyledJsxTaggedTemplate (createSourceFile : Parser)
    (textDocument : TextDocument) (_cursorOffsets : list Z)
  : Completion (list StyledJsxTaggedTemplate) :=
  match traverse createSourceFile textDocument with
  | (st, Normal _) => Normal (templates st)
  | (_, Throw e) => Throw e
  end.

(** ** Character-preserving masker *)

(** [/(\${.*})|(&&|\|\|)/g] *)
Definition expressionPattern : Regex :=
  RAlt (RGroup 1 (rseq [RLit (lit "${"); RStar true RDot; RLit (lit "}")]))
       (RGroup 2 (RAlt (RLit (lit "&&")) (RLit (lit "||")))).

(** [.replace(/./g, " ")] *)
Definition blank (s : JsString) : Completion JsString :=
  replace RDot (withString (lit " ")) s.

(** [(_str, p1) => p1.replace(/./g, " ")]: [p1] is the first capture, which
    is [undefined] when the second alternative matched. *)
Definition blankExpression : Replacer := fun _str groups =>
  p1 ← defined "replace" (capture 1 groups);
  blank p1.

(** [array[i]] for a number [i]. *)
Definition item {A} (l : list A) (i : Z) : option A :=
  if i <? 0 then None else l !! Z.to_nat i.

(** [for (let i = 0; i < n; i++) acc = body(i, acc)] *)
Fixpoint forEachIndex {A} (body : Z -> A -> Completion A) (indices : list nat)
    (acc : A) : Completion A :=
  match indices with
  | [] => Normal acc
  | i :: rest => acc' ← body (Z.of_nat i) acc; forEachIndex body rest acc'
  end.

(** One round of the loop over the templates: the CSS of template [i] with
    its expressions blanked, then the code up to the next template. *)
Definition maskStep (text : JsString)
    (styledJsxTaggedTemplates : list StyledJsxTaggedTemplate) (i : Z)
    (result : JsString) : Completion JsString :=
  t ← defined "start" (item styledJsxTaggedTemplates i);
  css ← replace expressionPattern blankExpression (slice text (start t) (end_ t));
  if i + 1 <? Z.of_nat (length styledJsxTaggedTemplates) then
    next ← defined "start" (item styledJsxTaggedTemplates (i + 1));
    between ← blank (slice text (end_ t) (start next));
    Normal ((result ++ css) ++ between)
  else Normal (result ++ css).

(** The text of the synthetic CSS document. *)
Definition maskedText (text : JsString)
    (styledJsxTaggedTemplates : list StyledJsxTaggedTemplate) : Completion JsString :=
  let n := Z.of_nat (length styledJsxTaggedTemplates) in
  first ← defined "start" (item styledJsxTaggedTemplates 0);
  before ← blank (slice text 0 (start first));
  result ← forEachIndex (maskStep text styledJsxTaggedTemplates)
             (seq 0 (length styledJsxTaggedTemplates)) before;
  last ← defined "end" (item styledJsxTaggedTemplates (n - 1));
  rest ← blank (slice text (end_ last) (Z.of_nat (length text)));
  Normal (result ++ rest).

Section Extraction.
Context {Stylesheet : Type}.

(** The cache of parsed stylesheets, as far as this module uses it. *)
Record LanguageModelCache := mkCache {
  cacheGet : TextDocument -> Stylesheet
}.

Record StyledJsx := mkStyledJsx {
  cssDocument : TextDocument;
  stylesheet : Stylesheet
}.

Variable createSourceFile : Parser.

Definition replaceAllWithSpacesExceptCss (textDocument : TextDocument)
    (styledJsxTaggedTemplates : list StyledJsxTaggedTemplate)
    (stylesheets : LanguageModelCache) : Completion StyledJsx :=
  result ← maskedText (getText textDocument) styledJsxTaggedTemplates;
  let cssDocument :=
    TextDocument_create (uri textDocument) "css" (version textDocument) result in
  Normal (mkStyledJsx cssDocument (cacheGet stylesheets cssDocument)).

(** [undefined] is [None]. *)
Definition getStyledJsx (document : TextDocument) (stylesheets : LanguageModelCache)
  : Completion (option StyledJsx) :=
  let styledJsxOffsets := getApproximateStyledJsxOffsets document in
  if 0 <? Z.of_nat (length styledJsxOffsets) then
    styledJsxTaggedTemplates ←
      findStyledJsxTaggedTemplate createSourceFile document styledJsxOffsets;
    if 0 <? Z.of_nat (length styledJsxTaggedTemplates) then
      Some <$> replaceAllWithSpacesExceptCss document styledJsxTaggedTemplates stylesheets
    else Normal None
  else Normal None.

Definition getStyledJsxUnderCursor (document : TextDocument)
    (stylesheets : LanguageModelCache) (cursorOffset : Z)
  : Completion (option StyledJsx) :=
  styledJsxTaggedTemplates ←
    findStyledJsxTaggedTemplate createSourceFile document [cursorOffset];
  if 0 <? Z.of_nat (length styledJsxTaggedTemplates) then
    first ← defined "start" (item styledJsxTaggedTemplates 0);
    if (start first <? cursorOffset) && (cursorOffset <? end_ first) then
      Some <$> replaceAllWithSpacesExceptCss document styledJsxTaggedTemplates stylesheets
    else Normal None
  else Normal None.
End Extraction.

Arguments LanguageModelCache : clear implicits.
Arguments StyledJsx : clear implicits.

(** ** The server

    The CSS language service and the protocol types are those of the
    libraries; the handlers pass their values through untouched. *)

(** A value of the client's [InitializeParams.capabilities]. *)
Unset Elimination Schemes.
Inductive JsValue :=
| JsUndefined
| JsNull
| JsBoolean (b : bool)
| JsNumber (n : Z)
| JsText (s : string)
| JsObject (fields : list (string * JsValue)).
Set Elimination Schemes.

Fixpoint field (key : string) (fields : list (string * JsValue)) : JsValue :=
  match fields with
  | [] => JsUndefined
  | (k, v) :: fields' => if String.eqb k key then v else field key fields'
  end.

(** [c[key]] *)
Definition getProperty (c : JsValue) (key : string) : Completion JsValue :=
  match c with
  | JsUndefined | JsNull => Throw (TypeError key)
  | JsObject fields => Normal (field key fields)
  | _ => Normal JsUndefined
  end.

(** [!!c] *)
Definition truthy (c : JsValue) : bool :=
  match c with
  | JsUndefined | JsNull => false
  | JsBoolean b => b
  | JsNumber n => negb (n =? 0)
  | JsText s => negb (String.eqb s EmptyString)
  | JsObject _ => true
  end.

(** [hasClientCapability], on the keys of [name.split(".")]. *)
Fixpoint hasClientCapability (c : JsValue) (keys : list string) : Completion bool :=
  match keys with
  | [] => Normal (truthy c)
  | key :: keys' => c' ← getProperty c key; hasClientCapability c' keys'
  end.

Inductive TextDocumentSyncKind := SyncNone | SyncFull | SyncIncremental.

Record CompletionOptions := mkCompletionOptions { resolveProvider : bool }.

Record ServerCapabilities := mkCapabilities {
  textDocumentSync : TextDocumentSyncKind;
  completionProvider : option CompletionOptions;
  hoverProvider : bool;
  documentSymbolProvider : bool;
  referencesProvider : bool;
  definitionProvider : bool;
  documentHighlightProvider : bool;
  codeActionProvider : bool;
  renameProvider : bool;
  colorProvider : bool
}.

(** [connection.onInitialize]: the result and the new value of
    [scopedSettingsSupport]. *)
Definition onInitialize (capabilities : JsValue) : Completion (ServerCapabilities * bool) :=
  snippetSupport ←
    hasClientCapability capabilities
      ["textDocument"; "completion"; "completionItem"; "snippetSupport"];
  scopedSettingsSupport ← hasClientCapability capabilities ["workspace"; "configuration"];
  Normal ({| textDocumentSync := SyncFull;
             completionProvider :=
               if snippetSupport : bool then Some (mkCompletionOptions false) else None;
             hoverProvider := true;
             documentSymbolProvider := true;
             referencesProvider := true;
             definitionProvider := true;
             documentHighlightProvider := true;
             codeActionProvider := true;
             renameProvider := false;
             colorProvider := true |},
          scopedSettingsSupport).

(** What a request handler returns. *)
Inductive Reply (A : Type) :=
| Undefined
| Null
| Result (a : A).
Arguments Undefined {A}.
Arguments Null {A}.
Arguments Result {A} a.

Section Server.
Context {Stylesheet LanguageSettings Diagnostic Position Range CompletionList
         Hover SymbolInformation Definition_ DocumentHighlight Location
         CodeActionContext CodeAction Color ColorInformation ColorPresentation
         WorkspaceEdit : Type}.

(** [LanguageService] of vscode-css-languageservice. *)
Record LanguageService := mkService {
  doValidation : TextDocument -> Stylesheet -> option LanguageSettings -> list Diagnostic;
  doComplete : TextDocument -> Position -> Stylesheet -> CompletionList;
  doHover : TextDocument -> Position -> Stylesheet -> Hover;
  findDocumentSymbols : TextDocument -> Stylesheet -> list SymbolInformation;
  findDefinition : TextDocument -> Position -> Stylesheet -> Definition_;
  findDocumentHighlights : TextDocument -> Position -> Stylesheet -> list DocumentHighlight;
  findReferences : TextDocument -> Position -> Stylesheet -> list Location;
  doCodeActions : TextDocument -> Range -> CodeActionContext -> Stylesheet -> list CodeAction;
  findDocumentColors : TextDocument -> Stylesheet -> list ColorInformation;
  getColorPresentations : TextDocument -> Stylesheet -> Color -> Range -> list ColorPresentation;
  doRename : TextDocument -> Position -> string -> Stylesheet -> WorkspaceEdit
}.

Variable cssLanguageService : LanguageService.
Variable createSourceFile : Parser.
Variable stylesheets : LanguageModelCache Stylesheet.
(** [document.offsetAt(position)] *)
Variable offsetAt : TextDocument -> Position -> Z.
(** The open documents, by URI. *)
Variable documents : gmap string TextDocument.

(** The timers of [pendingValidationRequests] and the
    [textDocument/publishDiagnostics] notifications sent so far. *)
Record Connection := mkConnection {
  pendingValidationRequests : gmap string nat;
  published : list (string * list Diagnostic)
}.

Definition sendDiagnostics (u : string) (diagnostics : list Diagnostic)
    (c : Connection) : Connection :=
  mkConnection (pendingValidationRequests c) (published c ++ [(u, diagnostics)]).

Definition cleanPendingValidation (textDocument : TextDocument) (c : Connection)
  : Connection :=
  match pendingValidationRequests c !! uri textDocument with
  | Some _ =>
      mkConnection (delete (uri textDocument) (pendingValidationRequests c)) (published c)
  | None => c
  end.

Definition clearDiagnostics (document : TextDocument) (c : Connection) : Connection :=
  sendDiagnostics (uri document) [] (cleanPendingValidation document c).

(** [validateTextDocument], once the settings have arrived. *)
Definition validateTextDocument (settings : option LanguageSettings)
    (document : TextDocument) (c : Connection) : Completion Connection :=
  styledJsx ← getStyledJsx createSourceFile document stylesheets;
  match styledJsx with
  | Some sj =>
      let diagnostics :=
        doValidation cssLanguageService (cssDocument sj) (stylesheet sj) settings in
      Normal (sendDiagnostics (uri document) diagnostics c)
  | None => Normal (clearDiagnostics document c)
  end.

(** The common shape of the handlers that extract the whole document. *)
Definition withStyledJsx {A} (u : string) (missing : Reply A)
    (run : TextDocument -> Stylesheet -> A) (none : Reply A) : Completion (Reply A) :=
  match documents !! u with
  | None => Normal missing
  | Some document =>
      styledJsx ← getStyledJsx createSourceFile document stylesheets;
      match styledJsx with
      | Some sj => Normal (Result (run (cssDocument sj) (stylesheet sj)))
      | None => Normal none
      end
  end.

Definition onCompletion (u : string) (position : Position)
  : Completion (Reply CompletionList) :=
  match documents !! u with
  | None => Normal Undefined
  | Some document =>
      let cursorOffset := offsetAt document position in
      styledJsx ← getStyledJsxUnderCursor createSourceFile document stylesheets cursorOffset;
      match styledJsx with
      | Some sj =>
          Normal (Result (doComplete cssLanguageService (cssDocument sj) position
                                     (stylesheet sj)))
      | None => Normal Null
      end
  end.

Definition onHover (u : string) (position : Position) : Completion (Reply Hover) :=
  withStyledJsx u Null (fun d s => doHover cssLanguageService d position s) Null.

Definition onDocumentSymbol (u : string) : Completion (Reply (list SymbolInformation)) :=
  withStyledJsx u Null (fun d s => findDocumentSymbols cssLanguageService d s) Null.

Definition onDefinition (u : string) (position : Position)
  : Completion (Reply Definition_) :=
  withStyledJsx u Null (fun d s => findDefinition cssLanguageService d position s) Null.

Definition onDocumentHighlight (u : string) (position : Position)
  : Completion (Reply (list DocumentHighlight)) :=
  withStyledJsx u Null
    (fun d s => findDocumentHighlights cssLanguageService d position s) Null.

Definition onReferences (u : string) (position : Position)
  : Completion (Reply (list Location)) :=
  withStyledJsx u Null (fun d s => findReferences cssLanguageService d position s) Null.

Definition onCodeAction (u : string) (range : Range) (context : CodeActionContext)
  : Completion (Reply (list CodeAction)) :=
  withStyledJsx u Null (fun d s => doCodeActions cssLanguageService d range context s) Null.

Definition onDocumentColor (u : string) : Completion (Reply (list ColorInformation)) :=
  withStyledJsx u (Result [])
    (fun d s => findDocumentColors cssLanguageService d s) (Result []).

Definition onColorPresentation (u : string) (color : Color) (range : Range)
  : Completion (Reply (list ColorPresentation)) :=
  withStyledJsx u (Result [])
    (fun d s => getColorPresentations cssLanguageService d s color range) (Result []).

Definition onRenameRequest (u : string) (position : Position) (newName : string)
  : Completion (Reply WorkspaceEdit) :=
  withStyledJsx u Null (fun d s => doRename cssLanguageService d position newName s) Null.
End Server.

Arguments LanguageService : clear implicits.
Arguments Connection : clear implicits.

(** ** Timers, settings and the life of a document

    The rest of the server's state: the timers armed by [setTimeout], the
    settings promises of [documentSettings], the configuration requests
    sent to the client.  A timer is armed until it fires or is cleared;
    its callback validates the document it was armed for. *)

(** What [getDocumentSettings] returns. *)
Inductive Promise :=
| Requested (n : nat) (* the client's answer to configuration request [n] *)
| Resolved            (* [Promise.resolve(void 0)] *).

Module Lifecycle.
Section Lifecycle.
Context {Stylesheet LanguageSettings Diagnostic Position Range CompletionList
         Hover SymbolInformation Definition_ DocumentHighlight Location
         CodeActionContext CodeAction Color ColorInformation ColorPresentation
         WorkspaceEdit : Type}.
Variable cssLanguageService :
  LanguageService Stylesheet LanguageSettings Diagnostic Position Range
    CompletionList Hover SymbolInformation Definition_ DocumentHighlight
    Location CodeActionContext CodeAction Color ColorInformation
    ColorPresentation WorkspaceEdit.
Variable createSourceFile : Parser.
Variable stylesheets : LanguageModelCache Stylesheet.

Record Server := mkServer {
  connection : Connection Diagnostic;
  timers : gmap nat TextDocument;
  nextTimer : nat;
  scopedSettingsSupport : bool;
  documentSettings : gmap string Promise;
  configurationRequests : list string;
  configured : option LanguageSettings
}.

Definition withConnection (c : Connection Diagnostic) (s : Server) : Server :=
  mkServer c (timers s) (nextTimer s) (scopedSettingsSupport s)
           (documentSettings s) (configurationRequests s) (configured s).

Definition withDocumentSettings (m : gmap string Promise) (s : Server) : Server :=
  mkServer (connection s) (timers s) (nextTimer s) (scopedSettingsSupport s)
           m (configurationRequests s) (configured s).

(** The server after [onInitialize] found [scoped] for
    [workspace.configuration]. *)
Definition initial (scoped : bool) : Server :=
  mkServer (mkConnection ∅ []) ∅ O scoped ∅ [] None.

(** [setTimeout(callback, validationDelayMs)], the callback being the one
    of [triggerValidation] for [textDocument]: a new handle. *)
Definition setTimeout (textDocument : TextDocument) (s : Server) : nat * Server :=
  (nextTimer s,
   mkServer (connection s) (<[nextTimer s := textDocument]> (timers s))
            (S (nextTimer s)) (scopedSettingsSupport s) (documentSettings s)
            (configurationRequests s) (configured s)).

Definition clearTimeout (request : nat) (s : Server) : Server :=
  mkServer (connection s) (delete request (timers s)) (nextTimer s)
           (scopedSettingsSupport s) (documentSettings s)
           (configurationRequests s) (configured s).

(** [cleanPendingValidation], with its [clearTimeout]. *)
Definition cleanPendingValidation (textDocument : TextDocument) (s : Server) : Server :=
  match pendingValidationRequests (connection s) !! uri textDocument with
  | Some request =>
      withConnection (cleanPendingValidation textDocument (connection s))
                     (clearTimeout request s)
  | None => s
  end.

Definition clearDiagnostics (document : TextDocument) (s : Server) : Server :=
  let s' := cleanPendingValidation document s in
  withConnection (sendDiagnostics (uri document) [] (connection s')) s'.

(** [getDocumentSettings]: with scoped settings, the promise kept for the
    URI, or a new one for a request that is sent now. *)
Definition getDocumentSettings (textDocument : TextDocument) (s : Server)
  : Promise * Server :=
  if scopedSettingsSupport s then
    match documentSettings s !! uri textDocument with
    | Some promise => (promise, s)
    | None =>
        let promise := Requested (length (configurationRequests s)) in
        (promise,
         mkServer (connection s) (timers s) (nextTimer s) (scopedSettingsSupport s)
                  (<[uri textDocument := promise]> (documentSettings s))
                  (configurationRequests s ++ [uri textDocument]) (configured s))
    end
  else (Resolved, s).

(** [triggerValidation] *)
Definition triggerValidation (textDocument : TextDocument) (s : Server) : Server :=
  let s1 := cleanPendingValidation textDocument s in
  let (request, s2) := setTimeout textDocument s1 in
  withConnection
    (mkConnection (<[uri textDocument := request]>
                     (pendingValidationRequests (connection s2)))
                  (published (connection s2))) s2.

(** The timer [request] runs out: if it is still armed, its callback
    removes the entry of the document and calls [validateTextDocument],
    which asks for the settings and returns. *)
Definition onTimeout (request : nat) (s : Server) : Server :=
  match timers s !! request with
  | None => s
  | Some textDocument =>
      let s1 := clearTimeout request s in
      let s2 :=
        withConnection
          (mkConnection (delete (uri textDocument)
                           (pendingValidationRequests (connection s1)))
                        (published (connection s1))) s1 in
      (getDocumentSettings textDocument s2).2
  end.

(** The settings promise of [validateTextDocument] is fulfilled with
    [settings]: the body of its [then]. *)
Definition onSettings (settings : option LanguageSettings) (document : TextDocument)
    (s : Server) : Completion Server :=
  styledJsx ← getStyledJsx createSourceFile document stylesheets;
  match styledJsx with
  | Some sj =>
      let diagnostics :=
        doValidation cssLanguageService (cssDocument sj) (stylesheet sj) settings in
      Normal (withConnection (sendDiagnostics (uri document) diagnostics (connection s)) s)
  | None => Normal (clearDiagnostics document s)
  end.

(** The handlers of [documents.onDidClose], in the order they were
    registered; the first one only tells the stylesheet cache. *)
Definition onDidClose (document : TextDocument) (s : Server) : Server :=
  let s1 := withDocumentSettings (delete (uri document) (documentSettings s)) s in
  clearDiagnostics document s1.

(** [documents.onDidChangeContent] *)
Definition onDidChangeContent (document : TextDocument) (s : Server) : Server :=
  triggerValidation document s.

(** [updateConfiguration], [all] being [documents.all()]. *)
Definition updateConfiguration (settings : LanguageSettings) (all : list TextDocument)
    (s : Server) : Server :=
  let s1 :=
    mkServer (connection s) (timers s) (nextTimer s) (scopedSettingsSupport s)
             ∅ (configurationRequests s) (Some settings) in
  foldl (fun s d => triggerValidation d s) s1 all.

(** What happens to the server, one event after the other. *)
Inductive Event :=
| Change (document : TextDocument)
| Close (document : TextDocument)
| Timeout (request : nat)
| Settings (settings : option LanguageSettings) (document : TextDocument)
| Configuration (settings : LanguageSettings) (all : list TextDocument).

(** An exception in the body of the [then] rejects the promise and leaves
    the state as it was. *)
Definition step (s : Server) (e : Event) : Server :=
  match e with
  | Change d => onDidChangeContent d s
  | Close d => onDidClose d s
  | Timeout t => onTimeout t s
  | Settings settings d =>
      match onSettings settings d s with
      | Normal s' => s'
      | Throw _ => s
      end
  | Configuration settings all => updateConfiguration settings all s
  end.

Definition run (events : list Event) (s : Server) : Server := foldl step s events.

(** Every timer of the table is armed for a document of that URI, every
    armed timer is in the table under the URI of its document, and the
    handles to come are new. *)
Definition consistent (s : Server) : Prop :=
  (forall u t, pendingValidationRequests (connection s) !! u = Some t ->
     exists d, timers s !! t = Some d /\ uri d = u)
  /\ (forall t d, timers s !! t = Some d ->
        pendingValidationRequests (connection s) !! uri d = Some t
        /\ (t < nextTimer s)%nat).

End Lifecycle.

Arguments Server : clear implicits.
Arguments Event : clear implicits.
End Lifecycle.

(** ** The older copy of the utilities

    The second copy of [styled-jsx-utils.ts] differs from the first in the
    test of the tag, which is an equality, and in [walk], which has no
    [try] and visits [node.getChildren()]. *)

Module Legacy.

Definition isStyledJsxTaggedTemplate (text : JsString) (templateNode : Located)
  : Completion bool :=
  parent ← defined "kind" (parent templateNode);
  if isTaggedTemplateExpression parent then
    tag ← defined "getText" (tag parent);
    if strEq (nodeText text tag) (lit "css") then Normal true else Normal false
  else Normal false.

(** [children n] stands for [node.getChildren()] here, and [childFault n]
    for an error raised by it. *)
Fixpoint walk (callback : Located -> Effect) (anc : list Node) (n : Node)
    {struct n} : Effect :=
  fun st =>
  let node := mkLocated n anc in
  if isJSDoc node || hasKind MultiLineCommentTrivia node
     || hasKind SingleLineCommentTrivia node then (st, Normal tt)
  else if isToken node && negb (hasKind EndOfFileToken node) then callback node st
  else forEachChild (walk callback (n :: anc)) (children n) (childFault n) st.

End Legacy.

(** ** Vocabulary of the properties *)

(** [y] is [x] after some more input was consumed. *)
Definition extends (x y : MatchState) : Prop :=
  exists w, rest x = w ++ rest y /\ endIndex y = (endIndex x + length w)%nat.

(** What [.replace(/./g, " ")] does to one unit. *)
Definition blankUnit (u : CodeUnit) : CodeUnit :=
  if isLineTerminator u then u else SPACE.

(** What the loop appends from template [t] on, [ts] being the templates
    after it. *)
Fixpoint pieces (text : JsString) (t : StyledJsxTaggedTemplate)
    (ts : list StyledJsxTaggedTemplate) : Completion JsString :=
  css ← replace expressionPattern blankExpression (slice text (start t) (end_ t));
  match ts with
  | [] => Normal css
  | next :: ts' =>
      between ← blank (slice text (end_ t) (start next));
      tail ← pieces text next ts';
      Normal (css ++ between ++ tail)
  end.

(** Each template ends before the next one starts, from [from] on and
    inside a text of length [len]. *)
Fixpoint ordered (from : Z) (ts : list StyledJsxTaggedTemplate) (len : Z) : Prop :=
  match ts with
  | [] => from <= len
  | t :: ts' => from <= start t /\ start t <= end_ t /\ ordered (end_ t) ts' len
  end.

(** The rule of the specification for a styled-jsx template, in its
    words.  [p] occurs in [s]: *)
Definition contains (s p : JsString) : Prop := exists a b, s = a ++ p ++ b.




(** The nodes whose children [walk] visits: neither comments nor JSDoc,
    and no token but the end of file. *)
Definition descends (node : Located) : bool :=
  negb (isJSDoc node || hasKind MultiLineCommentTrivia node
        || hasKind SingleLineCommentTrivia node)
  && negb (isToken node && negb (hasKind EndOfFileToken node)).

(** The least number of units a match consumes. *)
Fixpoint minLength (r : Regex) : nat :=
  match r with
  | RLit s => length s
  | RDot | RSpace => 1
  | RSeq r1 r2 => minLength r1 + minLength r2
  | RAlt r1 r2 => Nat.min (minLength r1) (minLength r2)
  | RStar _ _ | ROpt _ _ => 0
  | RGroup _ r1 => minLength r1
  end.

(** Every unit that a match of [r] consumes satisfies [P]. *)
Fixpoint consumes (P : N -> Prop) (r : Regex) : Prop :=
  match r with
  | RLit s => Forall P s
  | RDot => forall u, isLineTerminator u = false -> P u
  | RSpace => forall u, isWhiteSpace u = true -> P u
  | RSeq r1 r2 | RAlt r1 r2 => consumes P r1 /\ consumes P r2
  | RStar _ r1 | ROpt _ r1 | RGroup _ r1 => consumes P r1
  end.

(** [extends], with [P] on the units consumed. *)
Definition extendsWith (P : N -> Prop) (x y : MatchState) : Prop :=
  exists w, rest x = w ++ rest y /\ endIndex y = (endIndex x + length w)%nat
            /\ Forall P w.

(** The spans, from [index] to [lastIndex], of the matches that [replace]
    replaces, in order. *)
Fixpoint matchSpans (fuel : nat) (r : Regex) (i : nat) (s : JsString)
  : list (nat * nat) :=
  match fuel with
  | O => []
  | S fuel' =>
      match exec r i s with
      | None => []
      | Some m =>
          (matchIndex m, lastIndex m) ::
          (if Nat.eqb (lastIndex m) (matchIndex m) then
             match after m with
             | [] => []
             | _ :: s' => matchSpans fuel' r (S (lastIndex m)) s'
             end
           else matchSpans fuel' r (lastIndex m) (after m))
      end
  end.

(** The spans of the expressions of a CSS text. *)
Definition expressionSpans (css : JsString) : list (nat * nat) :=
  matchSpans (S (length css)) expressionPattern 0 css.

Definition inSpan (q : nat) (spans : list (nat * nat)) : Prop :=
  exists a b, (a, b) ∈ spans /\ (a <= q < b)%nat.

(** Every match of [r] ends with a unit that satisfies [P]; the empty
    literal that closes a sequence is passed over. *)
Fixpoint endsWith (P : N -> Prop) (r : Regex) : Prop :=
  match r with
  | RLit s => match last s with Some u => P u | None => False end
  | RSeq r1 r2 => endsWith P r2 \/ (r2 = RLit [] /\ endsWith P r1)
  | RAlt r1 r2 => endsWith P r1 /\ endsWith P r2
  | RGroup _ r1 => endsWith P r1
  | _ => False
  end.

(** The results of the successive [exec] of the scanner from [lastIndex]
    [i] on. *)
Inductive Scan (doc : JsString) : nat -> list Z -> Prop :=
| Scan_done i : Scan doc i []
| Scan_match i m more :
    execAt styledJsxPattern doc i = Some m ->
    Scan doc (lastIndex m) more ->
    Scan doc i (Z.of_nat (lastIndex m) :: more).




(** The text that the ranges cut the document into, with nothing
    replaced: what [pieces] starts from. *)
Fixpoint rawPieces (text : JsString) (t : StyledJsxTaggedTemplate)
    (ts : list StyledJsxTaggedTemplate) : JsString :=
  slice text (start t) (end_ t)
  ++ match ts with
     | [] => []
     | next :: ts' => slice text (end_ t) (start next) ++ rawPieces text next ts'
     end.

(** ** Sample files

    The trees are those the TypeScript parser builds for the texts. *)

Definition token (k : SyntaxKind) (a b : Z) : Node := mkNode k a b [] None.
Definition node (a b : Z) (cs : list Node) : Node := mkNode OtherNode a b cs None.
Definition tagged (a b : Z) (cs : list Node) : Node :=
  mkNode TaggedTemplateExpression a b cs None.

Definition document (text : string) : TextDocument :=
  mkDocument "file:///a.jsx" "javascriptreact" 1 (lit text).

(** Two tagged templates, one inside an interpolation of the other. *)
Definition nestedText : string := "css`a${css`b`}c`".
Definition nestedFile : ParsedFile :=
  mkParsed
    [ node 0 16
        [ tagged 0 16
            [ token Identifier 0 3;
              mkNode TemplateExpression 3 16
                [ token TemplateHead 3 7;
                  mkNode TemplateSpan 7 16
                    [ tagged 7 13
                        [ token Identifier 7 10;
                          token NoSubstitutionTemplateLiteral 10 13 ];
                      token TemplateTail 13 16 ] None ] None ] ];
      token EndOfFileToken 16 16 ] None.

(** Two statements, each a tagged template. *)
Definition twoText : string := "css`a`;css`bc`".
Definition twoFile : ParsedFile :=
  mkParsed
    [ node 0 7 [ tagged 0 6 [ token Identifier 0 3;
                              token NoSubstitutionTemplateLiteral 3 6 ] ];
      node 7 14 [ tagged 7 14 [ token Identifier 7 10;
                                token NoSubstitutionTemplateLiteral 10 14 ] ];
      token EndOfFileToken 14 14 ] None.

(** The same file when the iteration over the second statement faults. *)
Definition faultyFile : ParsedFile :=
  mkParsed
    [ node 0 7 [ tagged 0 6 [ token Identifier 0 3;
                              token NoSubstitutionTemplateLiteral 3 6 ] ];
      mkNode OtherNode 7 14 [] (Some "Error: Debug Failure.");
      token EndOfFileToken 14 14 ] None.

(** A tag that is a property access: the scanner pattern does not match
    the text, the tag contains [css]. *)
Definition memberText : string := "css.foo`a{}`".
Definition memberFile : ParsedFile :=
  mkParsed
    [ node 0 12
        [ tagged 0 12
            [ node 0 7 [ token Identifier 0 3; token Identifier 4 7 ];
              token NoSubstitutionTemplateLiteral 7 12 ] ];
      token EndOfFileToken 12 12 ] None.

(** A template with a logical operator outside an interpolation. *)
Definition operatorText : string := "css`a&&b`".
Definition operatorFile : ParsedFile :=
  mkParsed
    [ node 0 9 [ tagged 0 9 [ token Identifier 0 3;
                              token NoSubstitutionTemplateLiteral 3 9 ] ];
      token EndOfFileToken 9 9 ] None.

(** [<style jsx>{`a{}`}</style>] *)
Definition styleText : string := "<style jsx>{`a{}`}</style>".
Definition styleTemplate : Node := token NoSubstitutionTemplateLiteral 12 17.
Definition styleExpression : Node := mkNode JsxExpression 11 18 [styleTemplate] None.
Definition styleOpening : Node :=
  mkNode JsxOpeningElement 0 11
    [ token Identifier 1 6;
      mkNode JsxAttributes 7 10
        [ mkNode JsxAttribute 7 10 [ token Identifier 7 10 ] None ] None ] None.
Definition styleElement : Node :=
  mkNode JsxElement 0 26
    [ styleOpening; styleExpression;
      mkNode JsxClosingElement 18 26 [ token Identifier 20 25 ] None ] None.
Definition styleFile : ParsedFile :=
  mkParsed [ node 0 26 [ styleElement ]; token EndOfFileToken 26 26 ] None.

(** A file without styled-jsx. *)
Definition plainText : string := "const x = 1;".
Definition plainFile : ParsedFile :=
  mkParsed
    [ node 0 12 [ node 0 11 [ node 6 11 [ token Identifier 6 7;
                                          token OtherToken 10 11 ] ] ];
      token EndOfFileToken 12 12 ] None.

(** The parser on the sample files. *)
Definition sampleParser : Parser := fun _ text _ =>
  if strEq text (lit nestedText) then nestedFile
  else if strEq text (lit twoText) then twoFile
  else if strEq text (lit memberText) then memberFile
  else if strEq text (lit operatorText) then operatorFile
  else if strEq text (lit styleText) then styleFile
  else if strEq text (lit plainText) then plainFile
  else mkParsed [ token EndOfFileToken 0 0 ] None.

Definition faultyParser : Parser := fun _ _ _ => faultyFile.

(** A stylesheet is the text it was parsed from; the service answers with
    sizes and copies. *)
Definition sampleCache : LanguageModelCache JsString := mkCache getText.

Definition sampleService
  : LanguageService JsString unit string Z Z JsString JsString string JsString
                    string string unit string unit string string JsString :=
  {| doValidation := fun _ _ _ => [];
     doComplete := fun _ _ s => s;
     doHover := fun _ _ s => s;
     findDocumentSymbols := fun _ _ => [];
     findDefinition := fun _ _ s => s;
     findDocumentHighlights := fun _ _ _ => [];
     findReferences := fun _ _ _ => [];
     doCodeActions := fun _ _ _ _ => [];
     findDocumentColors := fun _ _ => [];
     getColorPresentations := fun _ _ _ _ => [];
     doRename := fun _ _ _ s => s |}.

(** [offsetAt] for positions that are offsets already. *)
Definition sampleOffsetAt : TextDocument -> Z -> Z := fun _ p => p.

Definition sampleDocuments (text : string) : gmap string TextDocument :=
  {[ "file:///a.jsx" := document text ]}.

(** The input of C4's counterexample: a line feed before the template. *)
Definition newlineDocument : TextDocument :=
  mkDocument "file:///a.jsx" "javascriptreact" 1 (lit "a" ++ [10%N] ++ lit "css`b`").

(** The synthetic document of a sample file. *)
Definition synthetic (d : TextDocument) (ts : list StyledJsxTaggedTemplate)
  : StyledJsx (list N) :=
  match replaceAllWithSpacesExceptCss d ts sampleCache with
  | Normal sj => sj
  | Throw _ => mkStyledJsx d []
  end.


Definition faultyNode : Node := mkNode OtherNode 7 14 [] (Some "Error: Debug Failure.").

Definition sampleCapabilities : JsValue :=
  JsObject
    [ ("textDocument",
       JsObject [ ("completion",
                   JsObject [ ("completionItem",
                               JsObject [ ("snippetSupport", JsBoolean true) ]) ]) ]);
      ("workspace", JsObject [ ("configuration", JsBoolean true) ]) ].

(** * Properties *)

(** ** The matcher *)

Lemma startsWith_prefix p : forall s, startsWith p s = true -> s = p ++ drop (length p) s.
Proof.
  induction p as [|a p IH]; intros [|b s] H; simpl in *; try done.
  apply andb_true_iff in H as [Hab Hps].
  apply N.eqb_eq in Hab as ->. f_equal. by apply IH.
Qed.

Lemma extends_refl x : extends x x.
Proof. exists []. simpl. split; [done | lia]. Qed.

Lemma extends_trans x y z : extends x y -> extends y z -> extends x z.
Proof.
  intros (w1 & H1 & E1) (w2 & H2 & E2). exists (w1 ++ w2).
  rewrite H1, H2, length_app, <- app_assoc. split; [done | lia].
Qed.

Lemma extends_advance_1 x u tl : rest x = u :: tl -> extends x (advance x 1).
Proof. intros H. exists [u]. simpl. rewrite H. simpl. by rewrite drop_0. Qed.

Lemma extends_index x y : extends x y -> (endIndex x <= endIndex y)%nat.
Proof. intros (w & _ & ->). lia. Qed.

Lemma extends_same x y :
  extends x y -> endIndex y = endIndex x -> rest y = rest x.
Proof.
  intros (w & H & E) Heq. destruct w as [|? w]; [done | simpl in E; lia].
Qed.

Lemma extends_take x y :
  extends x y -> rest x = take (endIndex y - endIndex x) (rest x) ++ rest y.
Proof.
  intros (w & H & E). rewrite E, H.
  replace (endIndex x + length w - endIndex x)%nat with (length w) by lia.
  by rewrite take_app_length.
Qed.

(** What holds, through a reflexive and transitive relation, between the
    start of one iteration and its end holds between the start and the end
    of a repetition. *)
Lemma repeatMatcher_rel (R : MatchState -> MatchState -> Prop) m g c :
  (forall x, R x x) -> (forall x y z, R x y -> R y z -> R x z) ->
  (forall x c z, m x c = Some z -> exists y, R x y /\ c y = Some z) ->
  forall fuel x z, repeatMatcher m g c fuel x = Some z ->
  exists y, R x y /\ c y = Some z.
Proof.
  intros Hrefl Htrans Hm. induction fuel as [|fuel IH]; intros x z H; simpl in H.
  { eauto. }
  assert (forall z', m x (fun y =>
            if Nat.eqb (endIndex y) (endIndex x) then None
            else repeatMatcher m g c fuel y) = Some z' ->
          exists y, R x y /\ c y = Some z') as Hagain.
  { intros z' Hz'. apply Hm in Hz' as (y1 & E1 & Hz').
    destruct (Nat.eqb (endIndex y1) (endIndex x)); [done|].
    apply IH in Hz' as (y2 & E2 & Hz'). eauto. }
  destruct g.
  - match type of H with
    | match ?t with _ => _ end = _ => destruct t eqn:E
    end.
    + inversion H; subst. by apply Hagain.
    + eauto.
  - destruct (c x) eqn:E.
    + inversion H; subst. eauto.
    + by apply Hagain.
Qed.

(** Every result of the matcher is a result of its continuation on a state
    further in the input. *)
Lemma matcher_sound r : forall x c z,
  matcher r x c = Some z -> exists y, extends x y /\ c y = Some z.
Proof.
  induction r as [s| | |r1 IH1 r2 IH2|r1 IH1 r2 IH2|g r IH|g r IH|i r IH];
    intros x c z H; cbn [matcher] in H.
  - destruct (startsWith s (rest x)) eqn:E; [|done].
    exists (advance x (length s)). split; [|done].
    exists s. split; [by apply startsWith_prefix | done].
  - destruct (rest x) as [|u tl] eqn:E; [done|].
    destruct (isLineTerminator u); [done|].
    eauto using extends_advance_1.
  - destruct (rest x) as [|u tl] eqn:E; [done|].
    destruct (isWhiteSpace u); [|done].
    eauto using extends_advance_1.
  - apply IH1 in H as (y1 & E1 & H). apply IH2 in H as (y2 & E2 & H).
    eauto using extends_trans.
  - destruct (matcher r1 x c) eqn:E.
    + inversion H; subst. by apply IH1.
    + by apply IH2.
  - change (repeatMatcher (matcher r) g c (S (length (rest x))) x = Some z) in H.
    eapply (repeatMatcher_rel extends); eauto using extends_refl, extends_trans.
  - change (repeatMatcher (matcher r) g c 1 x = Some z) in H.
    eapply (repeatMatcher_rel extends); eauto using extends_refl, extends_trans.
  - apply IH in H as (y & E & H). exists (setCapture i x y). split; [|done].
    destruct E as (w & ? & ?). by exists w.
Qed.

Lemma extendsWith_refl P x : extendsWith P x x.
Proof. exists []. simpl. split; [done|]. split; [lia | constructor]. Qed.

Lemma extendsWith_trans P x y z :
  extendsWith P x y -> extendsWith P y z -> extendsWith P x z.
Proof.
  intros (w1 & H1 & E1 & F1) (w2 & H2 & E2 & F2). exists (w1 ++ w2).
  rewrite H1, H2, length_app, <- app_assoc. split; [done|]. split; [lia|].
  by apply Forall_app.
Qed.

(** The units a match consumes are units its pattern can consume. *)
Lemma matcher_units P r : forall x c z,
  consumes P r -> matcher r x c = Some z ->
  exists y, extendsWith P x y /\ c y = Some z.
Proof.
  induction r as [s| | |r1 IH1 r2 IH2|r1 IH1 r2 IH2|g r IH|g r IH|i r IH];
    intros x c z HP H; cbn [matcher consumes] in *.
  - destruct (startsWith s (rest x)) eqn:E; [|done].
    exists (advance x (length s)). split; [|done].
    exists s. split; [by apply startsWith_prefix | done].
  - destruct (rest x) as [|u tl] eqn:E; [done|].
    destruct (isLineTerminator u) eqn:Eu; [done|].
    exists (advance x 1). split; [|done]. exists [u]. simpl. rewrite E. simpl.
    rewrite drop_0. split; [done|]. split; [done|].
    constructor; [by apply HP | constructor].
  - destruct (rest x) as [|u tl] eqn:E; [done|].
    destruct (isWhiteSpace u) eqn:Eu; [|done].
    exists (advance x 1). split; [|done]. exists [u]. simpl. rewrite E. simpl.
    rewrite drop_0. split; [done|]. split; [done|].
    constructor; [by apply HP | constructor].
  - destruct HP as [HP1 HP2].
    apply IH1 in H as (y1 & E1 & H); [|done]. apply IH2 in H as (y2 & E2 & H); [|done].
    eauto using extendsWith_trans.
  - destruct HP as [HP1 HP2]. destruct (matcher r1 x c) eqn:E.
    + inversion H; subst. by apply IH1.
    + by apply IH2.
  - change (repeatMatcher (matcher r) g c (S (length (rest x))) x = Some z) in H.
    eapply (repeatMatcher_rel (extendsWith P));
      eauto using extendsWith_refl, extendsWith_trans.
  - change (repeatMatcher (matcher r) g c 1 x = Some z) in H.
    eapply (repeatMatcher_rel (extendsWith P));
      eauto using extendsWith_refl, extendsWith_trans.
  - apply IH in H as (y & E & H); [|done]. exists (setCapture i x y). split; [|done].
    destruct E as (w & ? & ? & ?). by exists w.
Qed.

Lemma matcher_here r i s y :
  matcher r (mkState i s []) Some = Some y ->
  exists w, s = w ++ rest y /\ endIndex y = (i + length w)%nat
            /\ take (endIndex y - i) s = w.
Proof.
  intros H. apply matcher_sound in H as (y' & (w & Hw & Hi) & [= ->]).
  simpl in *. exists w. split; [done|]. split; [done|].
  rewrite Hi, Hw. replace (i + length w - i)%nat with (length w) by lia.
  by rewrite take_app_length.
Qed.

(** A successful [exec] splits the input into the skipped units, the match
    and the rest, and the match is a match of the pattern at its index. *)
Lemma exec_sound r : forall s i m,
  exec r i s = Some m ->
  s = skipped m ++ matched m ++ after m
  /\ matchIndex m = (i + length (skipped m))%nat
  /\ lastIndex m = (matchIndex m + length (matched m))%nat
  /\ matcher r (mkState (matchIndex m) (matched m ++ after m) []) Some
     = Some (mkState (lastIndex m) (after m) (groups m)).
Proof.
  assert (forall s i y, matcher r (mkState i s []) Some = Some y ->
    let m := mkResult [] i (take (endIndex y - i) s) (captures y)
                      (endIndex y) (rest y) in
    s = skipped m ++ matched m ++ after m
    /\ matchIndex m = (i + length (skipped m))%nat
    /\ lastIndex m = (matchIndex m + length (matched m))%nat
    /\ matcher r (mkState (matchIndex m) (matched m ++ after m) []) Some
       = Some (mkState (lastIndex m) (after m) (groups m))) as Hhere.
  { intros s i y E. pose proof E as (w & Hw & Hi & Ht)%matcher_here. simpl.
    rewrite Ht, <- Hw, E. destruct y; simpl in *. repeat split; (done || lia). }
  induction s as [|u s IH]; intros i m H; simpl in H.
  - destruct (matcher r (mkState i [] []) Some) as [y|] eqn:E; [|done].
    inversion H; subst; clear H. by apply Hhere.
  - destruct (matcher r (mkState i (u :: s) []) Some) as [y|] eqn:E.
    + inversion H; subst; clear H. by apply Hhere.
    + destruct (exec r (S i) s) as [m'|] eqn:E'; [|done].
      inversion H; subst; clear H; simpl.
      apply IH in E' as (Hs & Hi & Hl & Hm). rewrite <- Hs.
      repeat split; (done || lia).
Qed.

Lemma exec_progress r s i m :
  exec r i s = Some m ->
  (length (after m) <= length s)%nat
  /\ (lastIndex m <> matchIndex m -> length (after m) < length s)%nat.
Proof.
  intros H. apply exec_sound in H as (Hs & Hi & Hl & _).
  rewrite (f_equal length Hs), !length_app. split; lia.
Qed.

(** ** [replace] *)

(** A replacement as long as the match keeps the length of the string. *)
Lemma replaceFrom_length r f :
  (forall i s m out, exec r i s = Some m ->
     f (matched m) (groups m) = Normal out -> length out = length (matched m)) ->
  forall fuel i s out,
    replaceFrom fuel r f i s = Normal out -> length out = length s.
Proof.
  intros Hf. induction fuel as [|fuel IH]; intros i s out H; simpl in H.
  { by inversion H. }
  destruct (exec r i s) as [m|] eqn:E; [|by inversion H].
  destruct (f (matched m) (groups m)) as [rep|] eqn:Erep; [|done]. simpl in H.
  apply (Hf _ _ _ _ E) in Erep.
  apply exec_sound in E as (Hs & _).
  assert (forall tail, length tail = length (after m) ->
            length (skipped m ++ rep ++ tail) = length s) as Hsum.
  { intros tail Ht. rewrite (f_equal length Hs), !length_app. lia. }
  destruct (Nat.eqb (lastIndex m) (matchIndex m)).
  - destruct (after m) as [|u s'] eqn:Ea.
    + simpl in H. inversion H; subst. by apply Hsum.
    + destruct (replaceFrom fuel r f (S (lastIndex m)) s') as [t|] eqn:Et; [|done].
      simpl in H. inversion H; subst. apply Hsum. simpl. f_equal. eauto.
  - destruct (replaceFrom fuel r f (lastIndex m) (after m)) as [t|] eqn:Et; [|done].
    simpl in H. inversion H; subst. apply Hsum. eauto.
Qed.

(** Where the pattern does not match at the first unit, the unit is kept. *)
Lemma replaceFrom_skip r f fuel i u s :
  matcher r (mkState i (u :: s) []) Some = None ->
  replaceFrom (S fuel) r f i (u :: s)
  = (t ← replaceFrom (S fuel) r f (S i) s; Normal (u :: t)).
Proof.
  intros H. cbn [replaceFrom exec]. rewrite H.
  destruct (exec r (S i) s) as [m|]; [|done]. simpl.
  destruct (f (matched m) (groups m)) as [rep|]; [|done]. simpl.
  destruct (Nat.eqb (lastIndex m) (matchIndex m)).
  - destruct (after m) as [|v s']; [done|].
    by destruct (replaceFrom fuel r f (S (lastIndex m)) s').
  - by destruct (replaceFrom fuel r f (lastIndex m) (after m)).
Qed.

Lemma replaceFrom_dot : forall s fuel i,
  (length s < fuel)%nat ->
  replaceFrom fuel RDot (withString (lit " ")) i s = Normal (blankUnit <$> s).
Proof.
  induction s as [|u s IH]; intros [|fuel] i Hfuel; simpl in Hfuel; try lia.
  { done. }
  rewrite fmap_cons. unfold blankUnit at 1.
  destruct (isLineTerminator u) eqn:Eu.
  - rewrite replaceFrom_skip by (cbn [matcher rest]; by rewrite Eu).
    by rewrite IH by lia.
  - cbn [replaceFrom exec matcher rest]. rewrite Eu.
    cbn [advance endIndex rest captures skipped matched groups lastIndex
         matchIndex after withString mbind Completion_bind].
    replace (i + 1 - i)%nat with 1%nat by lia.
    destruct (Nat.eqb_spec (i + 1) i) as [?|_]; [lia|].
    cbn [drop]. rewrite drop_0, IH by lia. done.
Qed.

Lemma blank_spec s : blank s = Normal (blankUnit <$> s).
Proof. apply replaceFrom_dot. lia. Qed.

Lemma blank_length s out : blank s = Normal out -> length out = length s.
Proof. rewrite blank_spec. intros [= <-]. by rewrite length_fmap. Qed.

(** ** The expression pattern *)

(** A match of [expressionPattern] either is its first capture, and then
    has no line terminator in it, or leaves the first capture undefined. *)
Lemma expressionPattern_capture i s m :
  exec expressionPattern i s = Some m ->
  (capture 1 (groups m) = Some (matched m)
   /\ Forall (fun u => isLineTerminator u = false) (matched m))
  \/ capture 1 (groups m) = None.
Proof.
  intros H. apply exec_sound in H as (_ & _ & Hl & Hm).
  unfold expressionPattern in Hm. cbn [matcher] in Hm.
  match type of Hm with
  | match ?t with _ => _ end = _ => destruct t as [z|] eqn:E1
  end.
  - left. inversion Hm; subst z; clear Hm.
    apply (matcher_units (fun u => isLineTerminator u = false)) in E1
      as (y & (w & Hw & Hi & HF) & [= Hi' Hr Hc]).
    + simpl in Hw. rewrite Hr in Hw. apply app_inv_tail in Hw. subst w.
      split; [|done]. rewrite <- Hc. simpl. f_equal. rewrite Hi', Hl.
      replace (matchIndex m + length (matched m) - matchIndex m)%nat
        with (length (matched m)) by lia.
      by rewrite take_app_length.
    + cbn. repeat split; try done; repeat constructor; done.
  - right. cbn [rest] in Hm.
    destruct (startsWith (lit "&&") (matched m ++ after m));
      [by inversion Hm|].
    destruct (startsWith (lit "||") (matched m ++ after m));
      [by inversion Hm | done].
Qed.

Lemma blankExpression_length i s m out :
  exec expressionPattern i s = Some m ->
  blankExpression (matched m) (groups m) = Normal out ->
  length out = length (matched m).
Proof.
  intros [[Hc _]|Hc]%expressionPattern_capture; unfold blankExpression;
    rewrite Hc; simpl.
  - apply blank_length.
  - done.
Qed.

Lemma replace_expression_length s out :
  replace expressionPattern blankExpression s = Normal out -> length out = length s.
Proof. apply replaceFrom_length. intros. by eapply blankExpression_length. Qed.

(** ** [slice] inside the string *)

Lemma slice_inside (s : JsString) (a b : Z) :
  0 <= a <= b -> b <= Z.of_nat (length s) ->
  slice s a b = take (Z.to_nat b - Z.to_nat a) (drop (Z.to_nat a) s).
Proof.
  intros Hab Hb. unfold slice, relativeIndex.
  destruct (Z.ltb_spec a 0); [lia|]. destruct (Z.ltb_spec b 0); [lia|].
  rewrite !Z.min_l by lia.
  destruct (Z.leb_spec b a).
  - replace (Z.to_nat b - Z.to_nat a)%nat with O by lia. done.
  - f_equal. lia.
Qed.

Lemma slice_length (s : JsString) (a b : Z) :
  0 <= a <= b -> b <= Z.of_nat (length s) ->
  length (slice s a b) = (Z.to_nat b - Z.to_nat a)%nat.
Proof.
  intros Hab Hb. rewrite slice_inside by done.
  rewrite length_take, length_drop. lia.
Qed.

Lemma slice_lookup (s : JsString) (a b : Z) (j : nat) :
  0 <= a <= b -> b <= Z.of_nat (length s) ->
  (j < Z.to_nat b - Z.to_nat a)%nat ->
  slice s a b !! j = s !! (Z.to_nat a + j)%nat.
Proof.
  intros Hab Hb Hj. rewrite slice_inside by done.
  by rewrite lookup_take_lt, lookup_drop by done.
Qed.

(** ** The masker, piece by piece *)

Lemma bind_normal {A B} (a : A) (f : A -> Completion B) : (Normal a ≫= f) = f a.
Proof. done. Qed.

Lemma bind_inv {A B} (m : Completion A) (f : A -> Completion B) (b : B) :
  (m ≫= f) = Normal b -> exists a, m = Normal a /\ f a = Normal b.
Proof. destruct m as [a|e]; [eauto | done]. Qed.

Lemma item_nat {A} (l : list A) (k : nat) : item l (Z.of_nat k) = l !! k.
Proof.
  unfold item. destruct (Z.ltb_spec (Z.of_nat k) 0); [lia|]. by rewrite Nat2Z.id.
Qed.

Lemma item_nat_succ {A} (l : list A) (k : nat) : item l (Z.of_nat k + 1) = l !! S k.
Proof. replace (Z.of_nat k + 1) with (Z.of_nat (S k)) by lia. apply item_nat. Qed.

Lemma maskStep_at text all pre t suf acc :
  all = pre ++ t :: suf ->
  maskStep text all (Z.of_nat (length pre)) acc
  = (css ← replace expressionPattern blankExpression (slice text (start t) (end_ t));
     match suf with
     | [] => Normal (acc ++ css)
     | next :: _ =>
         Normal ((acc ++ css) ++ (blankUnit <$> slice text (end_ t) (start next)))
     end).
Proof.
  intros ->. unfold maskStep.
  rewrite item_nat, list_lookup_middle by done. simpl.
  destruct (replace expressionPattern blankExpression _) as [css|]; [|done]. simpl.
  rewrite length_app. simpl length.
  destruct suf as [|next suf]; simpl length.
  - destruct (Z.ltb_spec (Z.of_nat (length pre) + 1) (Z.of_nat (length pre + 1)));
      [lia | done].
  - destruct (Z.ltb_spec (Z.of_nat (length pre) + 1)
                (Z.of_nat (length pre + S (S (length suf))))); [|lia].
    rewrite item_nat_succ, (lookup_app_r pre) by lia.
    replace (S (length pre) - length pre)%nat with 1%nat by lia. simpl.
    by rewrite blank_spec.
Qed.

Lemma loop_pieces text all : forall suf pre t acc,
  all = pre ++ t :: suf ->
  forEachIndex (maskStep text all) (seq (length pre) (S (length suf))) acc
  = (piece ← pieces text t suf; Normal (acc ++ piece)).
Proof.
  induction suf as [|next suf IH]; intros pre t acc Hall.
  - cbn [seq forEachIndex pieces]. rewrite (maskStep_at _ _ _ _ _ _ Hall).
    by destruct (replace expressionPattern blankExpression _).
  - change (seq (length pre) (S (length (next :: suf))))
      with (length pre :: seq (S (length pre)) (S (length suf))).
    cbn [forEachIndex pieces]. rewrite (maskStep_at _ _ _ _ _ _ Hall).
    destruct (replace expressionPattern blankExpression _) as [css|]; [|done].
    rewrite blank_spec. simpl.
    specialize (IH (pre ++ [t]) next
                  ((acc ++ css) ++ (blankUnit <$> slice text (end_ t) (start next)))).
    rewrite length_app in IH. simpl in IH.
    replace (length pre + 1)%nat with (S (length pre)) in IH by lia.
    rewrite IH by (by rewrite Hall, <- app_assoc).
    destruct (pieces text next suf) as [tail|]; [|done]. simpl.
    by rewrite <- !app_assoc.
Qed.

Lemma last_default {A} (l : list A) (a d d' : A) :
  List.last (a :: l) d = List.last (a :: l) d'.
Proof. revert a. induction l as [|b l IH]; intros a; [done|]. apply (IH b). Qed.

Lemma lookup_last_cons {A} (l : list A) (a : A) :
  (a :: l) !! length l = Some (List.last l a).
Proof.
  revert a. induction l as [|b l IH]; intros a; [done|].
  simpl length. rewrite lookup_cons, IH. f_equal.
  destruct l as [|c l]; [done|].
  change (List.last (c :: l) b = List.last (c :: l) a). apply last_default.
Qed.

(** The masker on a non-empty list of templates: the blanked code before
    the first template, the pieces, the blanked code after the last one. *)
Lemma maskedText_pieces text t ts :
  maskedText text (t :: ts)
  = (piece ← pieces text t ts;
     Normal ((blankUnit <$> slice text 0 (start t)) ++ piece
             ++ (blankUnit <$> slice text (end_ (List.last ts t))
                                     (Z.of_nat (length text))))).
Proof.
  unfold maskedText. change (item (t :: ts) 0) with (Some t). cbn [defined].
  rewrite bind_normal, blank_spec, bind_normal.
  change (seq 0 (length (t :: ts)))
    with (seq (length (@nil StyledJsxTaggedTemplate)) (S (length ts))).
  rewrite (loop_pieces text (t :: ts) ts [] t) by done.
  destruct (pieces text t ts) as [piece|]; [|done]. rewrite !bind_normal.
  replace (Z.of_nat (length (t :: ts)) - 1) with (Z.of_nat (length ts))
    by (simpl length; lia).
  rewrite item_nat.
  rewrite lookup_last_cons. cbn [defined]. rewrite bind_normal, blank_spec, bind_normal.
  by rewrite <- app_assoc.
Qed.

(** ** Templates in source order *)

Lemma ordered_last ts : forall t len,
  start t <= end_ t -> ordered (end_ t) ts len ->
  end_ t <= end_ (List.last ts t) <= len.
Proof.
  induction ts as [|next ts IH]; intros t len Ht Ho; simpl in Ho.
  - simpl. lia.
  - destruct Ho as (H1 & H2 & H3). specialize (IH next len H2 H3).
    replace (List.last (next :: ts) t) with (List.last ts next).
    + lia.
    + destruct ts as [|c l]; [done|].
      change (List.last (c :: l) next = List.last (c :: l) t). apply last_default.
Qed.

Lemma last_cons_cons {A} (l : list A) (a b : A) :
  List.last (b :: l) a = List.last l b.
Proof.
  destruct l as [|c l]; [done|].
  change (List.last (c :: l) a = List.last (c :: l) b). apply last_default.
Qed.

Lemma pieces_length text ts : forall t piece,
  0 <= start t <= end_ t -> ordered (end_ t) ts (Z.of_nat (length text)) ->
  pieces text t ts = Normal piece ->
  length piece = (Z.to_nat (end_ (List.last ts t)) - Z.to_nat (start t))%nat.
Proof.
  induction ts as [|next ts IH]; intros t piece Ht Ho H; cbn [pieces] in H.
  - destruct (replace expressionPattern blankExpression _) as [css|] eqn:Ecss; [|done].
    inversion H; subst. apply replace_expression_length in Ecss.
    simpl in Ho. rewrite Ecss, slice_length by lia. done.
  - destruct (replace expressionPattern blankExpression _) as [css|] eqn:Ecss; [|done].
    rewrite bind_normal, blank_spec, bind_normal in H.
    destruct (pieces text next ts) as [tail|] eqn:Etail; [|done].
    inversion H; subst; clear H. destruct Ho as (H1 & H2 & H3).
    pose proof (ordered_last _ _ _ H2 H3) as Hl.
    apply replace_expression_length in Ecss.
    apply IH in Etail; [|lia|done].
    rewrite !length_app, length_fmap, Ecss, Etail, !slice_length by lia.
    rewrite last_cons_cons. lia.
Qed.

(** For templates in source order the synthetic text, when there is one,
    is as long as the text. *)
Lemma maskedText_length text ts out :
  ts <> [] -> ordered 0 ts (Z.of_nat (length text)) ->
  maskedText text ts = Normal out -> length out = length text.
Proof.
  destruct ts as [|t ts]; [done|]. intros _ (H1 & H2 & H3).
  rewrite maskedText_pieces.
  destruct (pieces text t ts) as [piece|] eqn:E; [|done]. intros [= <-].
  pose proof (ordered_last _ _ _ H2 H3) as Hl.
  apply pieces_length in E; [|lia|done].
  rewrite !length_app, !length_fmap, E, !slice_length by lia. lia.
Qed.

Lemma pieces_outside text ts : forall t piece p u,
  0 <= start t <= end_ t -> ordered (end_ t) ts (Z.of_nat (length text)) ->
  pieces text t ts = Normal piece ->
  text !! p = Some u ->
  (Z.to_nat (start t) <= p < Z.to_nat (end_ (List.last ts t)))%nat ->
  (forall t', t' ∈ t :: ts -> ~ (start t' <= Z.of_nat p < end_ t')) ->
  piece !! (p - Z.to_nat (start t))%nat = Some (blankUnit u).
Proof.
  induction ts as [|next ts IH]; intros t piece p u Ht Ho H Hp Hin Hout;
    cbn [pieces] in H.
  - exfalso. apply (Hout t); [by left|]. simpl in Hin. lia.
  - destruct (replace expressionPattern blankExpression _) as [css|] eqn:Ecss; [|done].
    rewrite bind_normal, blank_spec, bind_normal in H.
    destruct (pieces text next ts) as [tail|] eqn:Etail; [|done].
    inversion H; subst; clear H. destruct Ho as (H1 & H2 & H3).
    pose proof (ordered_last _ _ _ H2 H3) as Hl.
    apply replace_expression_length in Ecss. rewrite slice_length in Ecss by lia.
    rewrite last_cons_cons in Hin.
    assert (~ (start t <= Z.of_nat p < end_ t)) as Hnot by (apply Hout; by left).
    assert (Z.to_nat (end_ t) <= p)%nat as Hge by lia.
    rewrite lookup_app_r by lia. rewrite Ecss.
    destruct (decide (p < Z.to_nat (start next))%nat) as [Hlt|Hnlt].
    + rewrite lookup_app_l by (rewrite length_fmap, slice_length by lia; lia).
      rewrite list_lookup_fmap, slice_lookup by lia.
      replace (Z.to_nat (end_ t)
               + (p - Z.to_nat (start t) - (Z.to_nat (end_ t) - Z.to_nat (start t))))%nat
        with p by lia.
      by rewrite Hp.
    + rewrite lookup_app_r by (rewrite length_fmap, slice_length by lia; lia).
      rewrite length_fmap, slice_length by lia.
      replace (p - Z.to_nat (start t) - (Z.to_nat (end_ t) - Z.to_nat (start t))
               - (Z.to_nat (start next) - Z.to_nat (end_ t)))%nat
        with (p - Z.to_nat (start next))%nat by lia.
      eapply IH; eauto; [lia | lia |].
      intros t' Ht'. apply Hout. by right.
Qed.

(** ** The synthetic document *)

Lemma replaceAll_text {Stylesheet} (d : TextDocument) ts
    (stylesheets : LanguageModelCache Stylesheet) sj :
  replaceAllWithSpacesExceptCss d ts stylesheets = Normal sj ->
  maskedText (getText d) ts = Normal (getText (cssDocument sj)).
Proof.
  unfold replaceAllWithSpacesExceptCss.
  destruct (maskedText (getText d) ts) as [out|]; [|done].
  rewrite bind_normal. by intros [= <-].
Qed.

(** X8: for templates in source order, each ending before the next one
    starts, the synthetic document, when the masker returns one, is as long
    as the document. *)
Lemma replaceAll_length {Stylesheet} (d : TextDocument) ts
    (stylesheets : LanguageModelCache Stylesheet) sj :
  ordered 0 ts (Z.of_nat (length (getText d))) ->
  replaceAllWithSpacesExceptCss d ts stylesheets = Normal sj ->
  length (getText (cssDocument sj)) = length (getText d).
Proof.
  intros Ho H%replaceAll_text. eapply maskedText_length; [|done..].
  intros ->. done.
Qed.

(** C1, on the file [css`a${css`b`}c`]: the locator returns the outer
    template and the template nested in its interpolation, and the masker
    copies the inner template twice, so that the synthetic document has 20
    units where the document has 16. *)
Theorem nested_templates_change_length :
  findStyledJsxTaggedTemplate sampleParser (document nestedText) []
  = Normal [mkTemplate 4 15; mkTemplate 11 12]
  /\ exists sj,
       replaceAllWithSpacesExceptCss (document nestedText)
         [mkTemplate 4 15; mkTemplate 11 12] sampleCache = Normal sj
       /\ length (getText (cssDocument sj)) = 20%nat
       /\ length (getText (document nestedText)) = 16%nat.
Proof. split; [by vm_compute|]. eexists. by vm_compute. Qed.

(** C2, on the file [css`a&&b`]: the operator matches the second
    alternative of the pattern, the first capture is undefined, and the
    replacement function raises a [TypeError] where the claim has the two
    units of the operator blanked. *)
Theorem operator_raises_TypeError :
  findStyledJsxTaggedTemplate sampleParser (document operatorText) []
  = Normal [mkTemplate 4 8]
  /\ replaceAllWithSpacesExceptCss (document operatorText) [mkTemplate 4 8] sampleCache
     = Throw (TypeError "replace").
Proof. split; by vm_compute. Qed.

(** C3, on the file [css`a`;css`bc`] with the cursor at 12: the second
    template, from 11 to 13, strictly contains the cursor, and the result is
    [undefined], because only the first template is tested. *)
Theorem cursor_in_second_template :
  findStyledJsxTaggedTemplate sampleParser (document twoText) [12]
  = Normal [mkTemplate 4 5; mkTemplate 11 13]
  /\ 11 < 12 < 13
  /\ getStyledJsxUnderCursor sampleParser (document twoText) sampleCache 12
     = Normal None.
Proof. split; [by vm_compute|]. split; [lia | by vm_compute]. Qed.

(** X12: [getStyledJsxUnderCursor] answers by the first template alone:
    it returns a synthetic document exactly when the locator finds a
    template, the first one found strictly contains the cursor and the
    masker returns for the whole list. *)
Lemma getStyledJsxUnderCursor_first {Stylesheet} createSourceFile d
    (stylesheets : LanguageModelCache Stylesheet) c sj :
  getStyledJsxUnderCursor createSourceFile d stylesheets c = Normal (Some sj) <->
  exists t ts,
    findStyledJsxTaggedTemplate createSourceFile d [c] = Normal (t :: ts)
    /\ start t < c < end_ t
    /\ replaceAllWithSpacesExceptCss d (t :: ts) stylesheets = Normal sj.
Proof.
  unfold getStyledJsxUnderCursor.
  destruct (findStyledJsxTaggedTemplate createSourceFile d [c]) as [[|t ts]|e];
    simpl; [split; [done|by intros (?&?&?&_)]| |split; [done|by intros (?&?&?&_)]].
  destruct (Z.ltb_spec (start t) c), (Z.ltb_spec c (end_ t)); simpl;
    try (split; [done|intros (?&?&[= <- <-]&?&_); lia]).
  destruct (replaceAllWithSpacesExceptCss d (t :: ts) stylesheets) as [sj'|e] eqn:E; simpl.
  - split.
    + intros [= <-]. exists t, ts. by rewrite E.
    + intros (?&?&[= <- <-]&_&Hm). rewrite E in Hm. by inversion Hm.
  - split; [done|]. intros (?&?&[= <- <-]&_&Hm). by rewrite E in Hm.
Qed.

(** C4 as stated fails: offset 1 of the file is outside the only template,
    from 6 to 7, and the synthetic document has the line feed of the file
    there, not a space. *)
Lemma line_feed_is_kept :
  exists sj,
    replaceAllWithSpacesExceptCss newlineDocument [mkTemplate 6 7] sampleCache = Normal sj
    /\ ~ (6 <= 1 < 7)
    /\ getText newlineDocument !! 1%nat = Some 10%N
    /\ getText (cssDocument sj) !! 1%nat = Some 10%N
    /\ getText (cssDocument sj) !! 1%nat <> Some SPACE.
Proof. eexists. split; [by vm_compute|]. split; [lia|]. by vm_compute. Qed.

(** C4, amended: for templates in source order and an offset outside all
    of them, the synthetic document has a space there, unless the document
    has a line terminator there, which is kept. *)
Theorem outside_templates_blank {Stylesheet} (d : TextDocument) ts
    (stylesheets : LanguageModelCache Stylesheet) sj (p : nat) (u : N) :
  ordered 0 ts (Z.of_nat (length (getText d))) ->
  replaceAllWithSpacesExceptCss d ts stylesheets = Normal sj ->
  getText d !! p = Some u ->
  (forall t, t ∈ ts -> ~ (start t <= Z.of_nat p < end_ t)) ->
  getText (cssDocument sj) !! p = Some (if isLineTerminator u then u else SPACE).
Proof.
  intros Ho H%replaceAll_text Hp Hout. revert H.
  generalize (getText (cssDocument sj)) as out. intros out H.
  destruct ts as [|t ts]; [done|]. destruct Ho as (H1 & H2 & H3).
  rewrite maskedText_pieces in H.
  destruct (pieces (getText d) t ts) as [piece|] eqn:E; [|done].
  rewrite bind_normal in H. inversion H; subst out; clear H.
  pose proof (ordered_last _ _ _ H2 H3) as Hl.
  pose proof (pieces_length _ _ _ _ (conj H1 H2) H3 E) as Hlen.
  pose proof (lookup_lt_Some _ _ _ Hp) as Hplen.
  change (if isLineTerminator u then u else SPACE) with (blankUnit u).
  destruct (decide (p < Z.to_nat (start t))%nat) as [Hlt|Hge].
  - rewrite lookup_app_l by (rewrite length_fmap, slice_length by lia; lia).
    rewrite list_lookup_fmap, slice_lookup by lia. simpl. by rewrite Hp.
  - rewrite lookup_app_r by (rewrite length_fmap, slice_length by lia; lia).
    rewrite length_fmap, slice_length by lia.
    replace (p - (Z.to_nat (start t) - Z.to_nat 0))%nat
      with (p - Z.to_nat (start t))%nat by lia.
    destruct (decide (p < Z.to_nat (end_ (List.last ts t)))%nat) as [Hlt|Hge'].
    + rewrite lookup_app_l by lia.
      eapply pieces_outside; eauto; lia.
    + rewrite lookup_app_r by lia. rewrite Hlen.
      rewrite list_lookup_fmap, slice_lookup by lia.
      replace (Z.to_nat (end_ (List.last ts t))
               + (p - Z.to_nat (start t)
                  - (Z.to_nat (end_ (List.last ts t)) - Z.to_nat (start t))))%nat
        with p by lia.
      by rewrite Hp.
Qed.

(** ** Which templates qualify *)

Lemma startsWith_app p b : startsWith p (p ++ b) = true.
Proof. induction p as [|a p IH]; [done|]. simpl. by rewrite N.eqb_refl. Qed.

Lemma includes_unfold s p :
  includes s p = startsWith p s || match s with [] => false | _ :: s' => includes s' p end.
Proof. by destruct s. Qed.

Lemma includes_contains s p : includes s p = true <-> contains s p.
Proof.
  split.
  - induction s as [|x s IH]; rewrite includes_unfold; intros H.
    + rewrite orb_false_r in H. exists [], []. by destruct p.
    + apply orb_true_iff in H as [H|H].
      * exists [], (drop (length p) (x :: s)). by apply startsWith_prefix.
      * destruct (IH H) as (a & b & ->). by exists (x :: a), b.
  - intros (a & b & ->). induction a as [|x a IH]; rewrite includes_unfold.
    + simpl. by rewrite startsWith_app.
    + change ((x :: a) ++ p ++ b) with (x :: (a ++ p ++ b)).
      cbv beta iota. rewrite IH. apply orb_true_r.
Qed.






(** ** The traversal *)

Lemma Node_ind (P : Node -> Prop) :
  (forall k a b cs f, Forall P cs -> P (mkNode k a b cs f)) -> forall n, P n.
Proof.
  intros H. fix IH 1. intros [k a b cs f]. apply H.
  induction cs as [|c cs IHcs]; constructor; [apply IH | apply IHcs].
Qed.

Lemma walk_unfold callback anc n st :
  walk callback anc n st =
  let node := mkLocated n anc in
  if isJSDoc node || hasKind MultiLineCommentTrivia node
     || hasKind SingleLineCommentTrivia node then (st, Normal tt)
  else if isToken node && negb (hasKind EndOfFileToken node) then callback node st
  else
    match forEachChild (walk callback (n :: anc)) (children n) (childFault n) st with
    | (st', Normal _) => (st', Normal tt)
    | (st', Throw e) => (consoleLog (stack e) st', Normal tt)
    end.
Proof. by destruct n. Qed.

(** A node that is not a token is walked without an exception. *)
Lemma walk_no_exception callback anc n st :
  isToken (mkLocated n anc) = false ->
  exists st', walk callback anc n st = (st', Normal tt).
Proof.
  intros Htok. rewrite walk_unfold. cbv zeta. rewrite Htok. simpl.
  destruct (_ || _); [eauto|].
  destruct (forEachChild _ _ _ _) as [st' [[]|e]]; eauto.
Qed.

(** The fault of an iteration is caught at the node and logged. *)
Lemma walk_catches callback anc n st st' e :
  descends (mkLocated n anc) = true ->
  forEachChild (walk callback (n :: anc)) (children n) (childFault n) st = (st', Throw e) ->
  walk callback anc n st = (consoleLog (stack e) st', Normal tt).
Proof.
  unfold descends. intros [H1 H2]%andb_true_iff Hf. rewrite walk_unfold. cbv zeta.
  apply negb_true_iff in H1, H2. by rewrite H1, H2, Hf.
Qed.

Lemma collect_keeps text node st :
  templates st `prefix_of` templates (collect text node st).1
  /\ console (collect text node st).1 = console st.
Proof.
  unfold collect. destruct (getTemplateString node) as [t|]; [|done].
  destruct (_ ≫= _) as [[|]|e]; simpl; [|done..].
  split; [by apply prefix_app_r | done].
Qed.

Lemma forEachChild_keeps (cb : Node -> Effect) cs fault :
  Forall (fun c => forall st,
            templates st `prefix_of` templates (cb c st).1
            /\ console st `prefix_of` console (cb c st).1) cs ->
  forall st,
    templates st `prefix_of` templates (forEachChild cb cs fault st).1
    /\ console st `prefix_of` console (forEachChild cb cs fault st).1.
Proof.
  induction 1 as [|c cs Hc _ IH]; intros st; simpl; [done|].
  specialize (Hc st). destruct (cb c st) as [st' [[]|e]]; simpl in *; [|done].
  destruct Hc as [Hc1 Hc2], (IH st') as [IH1 IH2].
  split; [by etrans; [apply Hc1|] | by etrans; [apply Hc2|]].
Qed.

(** The traversal only adds to [templates] and to the console. *)
Lemma walk_keeps text n : forall anc st,
  templates st `prefix_of` templates (walk (collect text) anc n st).1
  /\ console st `prefix_of` console (walk (collect text) anc n st).1.
Proof.
  induction n as [k a b cs f IH] using Node_ind. intros anc st.
  rewrite walk_unfold. cbv zeta.
  destruct (_ || _); [done|].
  destruct (_ && _).
  { destruct (collect_keeps text (mkLocated (mkNode k a b cs f) anc) st) as [? ->].
    done. }
  cbn [children childFault].
  pose proof (forEachChild_keeps
                (walk (collect text) (mkNode k a b cs f :: anc)) cs f) as Hk.
  specialize (Hk (Forall_impl _ _ _ IH (fun c Hc => Hc _)) st).
  destruct (forEachChild _ _ _ _) as [st' [[]|e]]; simpl in *; [done|].
  split; [tauto|]. etrans; [apply Hk|]. by apply prefix_app_r.
Qed.

(** The traversal of a file ends without an exception. *)
Lemma traverse_no_exception createSourceFile d :
  exists st, traverse createSourceFile d = (st, Normal tt).
Proof. by apply walk_no_exception. Qed.

(** C6 as stated fails: the iteration over the second statement of the
    file faults, the fault is caught and logged, and the template of the
    first statement is still returned. *)
Lemma fault_keeps_found_templates :
  console (traverse faultyParser (document twoText)).1 = ["Error: Debug Failure."]
  /\ findStyledJsxTaggedTemplate faultyParser (document twoText) []
     = Normal [mkTemplate 4 5]
  /\ findStyledJsxTaggedTemplate faultyParser (document twoText) [] <> Normal [].
Proof. by vm_compute. Qed.

(** C6, amended: [findStyledJsxTaggedTemplate] returns a list for every
    text and tree; a fault raised while the children of a node are visited
    is caught at that node and its stack logged; the ranges found so far
    stay in the list. *)
Theorem traversal_catches_faults (createSourceFile : Parser) (d : TextDocument)
    (offsets : list Z) :
  (exists ts, findStyledJsxTaggedTemplate createSourceFile d offsets = Normal ts)
  /\ (forall anc n st st' e,
        descends (mkLocated n anc) = true ->
        forEachChild (walk (collect (getText d)) (n :: anc)) (children n)
                     (childFault n) st = (st', Throw e) ->
        walk (collect (getText d)) anc n st = (consoleLog (stack e) st', Normal tt))
  /\ (forall anc n st,
        templates st `prefix_of` templates (walk (collect (getText d)) anc n st).1).
Proof.
  split; [|split].
  - unfold findStyledJsxTaggedTemplate.
    destruct (traverse_no_exception createSourceFile d) as [st ->]. eauto.
  - intros. by apply walk_catches.
  - intros. apply walk_keeps.
Qed.

(** ** The guards of the masker *)

Lemma replaceFrom_throws r f e0 :
  (forall m g e, f m g = Throw e -> e = e0) ->
  forall fuel i s e, replaceFrom fuel r f i s = Throw e -> e = e0.
Proof.
  intros Hf. induction fuel as [|fuel IH]; intros i s e H; simpl in H; [done|].
  destruct (exec r i s) as [m|]; [|done].
  destruct (f (matched m) (groups m)) as [rep|e'] eqn:Ef; simpl in H.
  - destruct (Nat.eqb (lastIndex m) (matchIndex m)).
    + destruct (after m) as [|u s']; [done|].
      destruct (replaceFrom fuel r f (S (lastIndex m)) s') as [t|e'] eqn:Et;
        simpl in H; [done|]. inversion H; subst. eauto.
    + destruct (replaceFrom fuel r f (lastIndex m) (after m)) as [t|e'] eqn:Et;
        simpl in H; [done|]. inversion H; subst. eauto.
  - inversion H; subst. eauto.
Qed.

Lemma blankExpression_throws m g e :
  blankExpression m g = Throw e -> e = TypeError "replace".
Proof.
  unfold blankExpression. destruct (capture 1 g) as [p1|]; simpl.
  - by rewrite blank_spec.
  - by intros [= <-].
Qed.

Lemma pieces_throws text ts : forall t e,
  pieces text t ts = Throw e -> e = TypeError "replace".
Proof.
  induction ts as [|next ts IH]; intros t e H; cbn [pieces] in H.
  - destruct (replace expressionPattern blankExpression _) as [css|e'] eqn:E;
      simpl in H; [done|]. inversion H; subst.
    eapply replaceFrom_throws; [apply blankExpression_throws | apply E].
  - destruct (replace expressionPattern blankExpression _) as [css|e'] eqn:E.
    + rewrite bind_normal, blank_spec, bind_normal in H.
      destruct (pieces text next ts) as [tail|e'] eqn:Et; simpl in H; [done|].
      inversion H; subst. eauto.
    + inversion H; subst.
      eapply replaceFrom_throws; [apply blankExpression_throws | apply E].
Qed.

(** With a template in the list no index is out of bounds: the one
    exception left is that of the replacement function. *)
Lemma replaceAll_throws {Stylesheet} d t ts
    (stylesheets : LanguageModelCache Stylesheet) e :
  replaceAllWithSpacesExceptCss d (t :: ts) stylesheets = Throw e ->
  e = TypeError "replace".
Proof.
  unfold replaceAllWithSpacesExceptCss. rewrite maskedText_pieces.
  destruct (pieces (getText d) t ts) as [piece|e'] eqn:E; simpl; [done|].
  intros [= <-]. by eapply pieces_throws.
Qed.

Lemma findStyledJsxTaggedTemplate_total createSourceFile d offsets :
  exists ts, findStyledJsxTaggedTemplate createSourceFile d offsets = Normal ts.
Proof.
  unfold findStyledJsxTaggedTemplate.
  destruct (traverse_no_exception createSourceFile d) as [st ->]. eauto.
Qed.

(** C8: the masker reads the first template of an empty list and raises a
    [TypeError]; with a template in the list it reads no index out of
    bounds; [getStyledJsx] and [getStyledJsxUnderCursor] either return
    [undefined] or call the masker on a list with a template in it. *)
Theorem masker_called_with_templates {Stylesheet} (createSourceFile : Parser)
    (d : TextDocument) (stylesheets : LanguageModelCache Stylesheet) (c : Z) :
  replaceAllWithSpacesExceptCss d [] stylesheets = Throw (TypeError "start")
  /\ (forall t ts e,
        replaceAllWithSpacesExceptCss d (t :: ts) stylesheets = Throw e ->
        e <> TypeError "start" /\ e <> TypeError "end")
  /\ (getStyledJsx createSourceFile d stylesheets = Normal None
      \/ exists t ts,
           findStyledJsxTaggedTemplate createSourceFile d
             (getApproximateStyledJsxOffsets d) = Normal (t :: ts)
           /\ getStyledJsx createSourceFile d stylesheets
              = (Some <$> replaceAllWithSpacesExceptCss d (t :: ts) stylesheets))
  /\ (getStyledJsxUnderCursor createSourceFile d stylesheets c = Normal None
      \/ exists t ts,
           findStyledJsxTaggedTemplate createSourceFile d [c] = Normal (t :: ts)
           /\ getStyledJsxUnderCursor createSourceFile d stylesheets c
              = (Some <$> replaceAllWithSpacesExceptCss d (t :: ts) stylesheets)).
Proof.
  split; [done|]. split; [|split].
  - intros t ts e ->%replaceAll_throws. done.
  - unfold getStyledJsx. destruct (0 <? _); [|by left].
    destruct (findStyledJsxTaggedTemplate_total createSourceFile d
                (getApproximateStyledJsxOffsets d)) as [[|t ts] E]; rewrite E; simpl.
    + by left.
    + right. by exists t, ts.
  - unfold getStyledJsxUnderCursor.
    destruct (findStyledJsxTaggedTemplate_total createSourceFile d [c])
      as [[|t ts] E]; rewrite E; simpl; [by left|].
    destruct (_ && _); [|by left]. right. by exists t, ts.
Qed.

(** C10: the offsets passed to the locator do not change its result; the
    list that the cursor mode examines is the list of the whole document. *)
Theorem locator_ignores_offsets (createSourceFile : Parser) (d : TextDocument)
    (offsets1 offsets2 : list Z) (cursorOffset : Z) :
  findStyledJsxTaggedTemplate createSourceFile d offsets1
  = findStyledJsxTaggedTemplate createSourceFile d offsets2
  /\ findStyledJsxTaggedTemplate createSourceFile d [cursorOffset]
     = findStyledJsxTaggedTemplate createSourceFile d (getApproximateStyledJsxOffsets d)
  /\ findStyledJsxTaggedTemplate createSourceFile d [cursorOffset]
     = Normal (templates (traverse createSourceFile d).1).
Proof.
  split; [done|]. split; [done|]. unfold findStyledJsxTaggedTemplate.
  by destruct (traverse_no_exception createSourceFile d) as [st ->].
Qed.

(** ** The handlers *)

Section Handlers.
Context {Stylesheet LanguageSettings Diagnostic Position Range CompletionList
         Hover SymbolInformation Definition_ DocumentHighlight Location
         CodeActionContext CodeAction Color ColorInformation ColorPresentation
         WorkspaceEdit : Type}.
Variable service :
  LanguageService Stylesheet LanguageSettings Diagnostic Position Range
    CompletionList Hover SymbolInformation Definition_ DocumentHighlight
    Location CodeActionContext CodeAction Color ColorInformation
    ColorPresentation WorkspaceEdit.
Variable createSourceFile : Parser.
Variable stylesheets : LanguageModelCache Stylesheet.
Variable documents : gmap string TextDocument.

Lemma scan_no_match (d : TextDocument) :
  execAt styledJsxPattern (getText d) 0 = None ->
  getApproximateStyledJsxOffsets d = [].
Proof.
  intros H. unfold getApproximateStyledJsxOffsets. cbn [scanLoop]. by rewrite H.
Qed.

Lemma getStyledJsx_no_match (d : TextDocument) :
  execAt styledJsxPattern (getText d) 0 = None ->
  getStyledJsx createSourceFile d stylesheets = Normal None.
Proof. intros H. unfold getStyledJsx. by rewrite scan_no_match. Qed.

Lemma withStyledJsx_none {A} u d (missing none : Reply A) run :
  documents !! u = Some d ->
  getStyledJsx createSourceFile d stylesheets = Normal None ->
  withStyledJsx createSourceFile stylesheets documents u missing run none
  = Normal none.
Proof. intros Hd Hg. unfold withStyledJsx. by rewrite Hd, Hg. Qed.

(** C7, amended: when the scanner pattern does not match the text of a
    document, the list of offsets is empty, [getStyledJsx] is
    [undefined] whatever the parser and the masker do, the handlers that
    extract through [getStyledJsx] answer [null] or the empty array, and
    validation publishes the empty list of diagnostics.  The completion
    handler is not among them: it does not consult the scanner. *)
Theorem no_marker_no_result (u : string) (d : TextDocument)
    (settings : option LanguageSettings) (position : Position) (range : Range)
    (context : CodeActionContext) (color : Color) (newName : string)
    (c : Connection Diagnostic) :
  execAt styledJsxPattern (getText d) 0 = None ->
  documents !! u = Some d ->
  getApproximateStyledJsxOffsets d = []
  /\ getStyledJsx createSourceFile d stylesheets = Normal None
  /\ onHover service createSourceFile stylesheets documents u position = Normal Null
  /\ onDocumentSymbol service createSourceFile stylesheets documents u = Normal Null
  /\ onDefinition service createSourceFile stylesheets documents u position
     = Normal Null
  /\ onDocumentHighlight service createSourceFile stylesheets documents u position
     = Normal Null
  /\ onReferences service createSourceFile stylesheets documents u position
     = Normal Null
  /\ onCodeAction service createSourceFile stylesheets documents u range context
     = Normal Null
  /\ onDocumentColor service createSourceFile stylesheets documents u
     = Normal (Result [])
  /\ onColorPresentation service createSourceFile stylesheets documents u color range
     = Normal (Result [])
  /\ onRenameRequest service createSourceFile stylesheets documents u position newName
     = Normal Null
  /\ exists c',
       validateTextDocument service createSourceFile stylesheets settings d c
       = Normal c'
       /\ published c' = published c ++ [(uri d, [])].
Proof.
  intros Hno Hd. pose proof (getStyledJsx_no_match d Hno) as Hg.
  split; [by apply scan_no_match|]. split; [done|].
  unfold onHover, onDocumentSymbol, onDefinition, onDocumentHighlight,
    onReferences, onCodeAction, onDocumentColor, onColorPresentation,
    onRenameRequest.
  repeat (split; [by eapply withStyledJsx_none|]).
  unfold validateTextDocument. rewrite Hg. simpl. eexists. split; [done|].
  unfold clearDiagnostics, sendDiagnostics, cleanPendingValidation. simpl.
  by destruct (pendingValidationRequests c !! uri d).
Qed.

(** C9, amended: every initialize result has [renameProvider] false; the
    rename handler answers [null] for a document that is not open or has
    no styled-jsx, and otherwise answers with the result of [doRename]
    on the synthetic document. *)
Theorem rename_off_but_answered (u : string) (position : Position) (newName : string) :
  (forall capabilities r,
     onInitialize capabilities = Normal r -> renameProvider r.1 = false)
  /\ (documents !! u = None ->
      onRenameRequest service createSourceFile stylesheets documents u position newName
      = Normal Null)
  /\ (forall d,
        documents !! u = Some d ->
        getStyledJsx createSourceFile d stylesheets = Normal None ->
        onRenameRequest service createSourceFile stylesheets documents u position
                        newName
        = Normal Null)
  /\ (forall d sj,
        documents !! u = Some d ->
        getStyledJsx createSourceFile d stylesheets = Normal (Some sj) ->
        onRenameRequest service createSourceFile stylesheets documents u position
                        newName
        = Normal (Result (doRename service (cssDocument sj) position newName
                                   (stylesheet sj)))).
Proof.
  split; [|split; [|split]].
  - intros capabilities r. unfold onInitialize.
    intros (snippet & _ & (scoped & _ & [= <-])%bind_inv)%bind_inv. done.
  - intros Hd. unfold onRenameRequest, withStyledJsx. by rewrite Hd.
  - intros d Hd Hg. by eapply withStyledJsx_none.
  - intros d sj Hd Hg. unfold onRenameRequest, withStyledJsx. by rewrite Hd, Hg.
Qed.
End Handlers.

(** C7 as stated fails for completion: the scanner pattern does not match
    [css.foo`a{}`], the tag contains [css], and with the cursor at 9 the
    completion handler answers with the completions of the CSS service. *)
Lemma completion_without_marker :
  execAt styledJsxPattern (lit memberText) 0 = None
  /\ getApproximateStyledJsxOffsets (document memberText) = []
  /\ exists list,
       onCompletion sampleService sampleParser sampleCache sampleOffsetAt
         (sampleDocuments memberText) "file:///a.jsx" 9 = Normal (Result list)
       /\ onCompletion sampleService sampleParser sampleCache sampleOffsetAt
            (sampleDocuments memberText) "file:///a.jsx" 9 <> Normal Null.
Proof.
  split; [by vm_compute|]. split; [by vm_compute|]. eexists.
  split; [by vm_compute|]. by vm_compute.
Qed.

(** C9 as stated fails: for an open document with styled-jsx the rename
    handler answers with the edit of the CSS service, not with nothing. *)
Lemma rename_answers :
  exists edit,
    onRenameRequest sampleService sampleParser sampleCache (sampleDocuments twoText)
      "file:///a.jsx" 4 "x" = Normal (Result edit)
    /\ onRenameRequest sampleService sampleParser sampleCache (sampleDocuments twoText)
         "file:///a.jsx" 4 "x" <> Normal Null.
Proof. eexists. split; by vm_compute. Qed.

(** ** The bounds of the loops are never reached *)

(** Continuations that agree on the states further in the input give the
    same result. *)
Lemma repeatMatcher_ext m g :
  (forall x c1 c2, (forall y, extends x y -> c1 y = c2 y) -> m x c1 = m x c2) ->
  forall fuel x c1 c2,
    (forall y, extends x y -> c1 y = c2 y) ->
    repeatMatcher m g c1 fuel x = repeatMatcher m g c2 fuel x.
Proof.
  intros Hm. induction fuel as [|fuel IH]; intros x c1 c2 Hc; simpl.
  { apply Hc, extends_refl. }
  rewrite (Hc x (extends_refl x)).
  rewrite (Hm x _ (fun y => if Nat.eqb (endIndex y) (endIndex x) then None
                            else repeatMatcher m g c2 fuel y)); [done|].
  intros y Hy. destruct (Nat.eqb (endIndex y) (endIndex x)); [done|].
  apply IH. intros z Hz. apply Hc. by eapply extends_trans.
Qed.

Lemma matcher_ext r : forall x c1 c2,
  (forall y, extends x y -> c1 y = c2 y) -> matcher r x c1 = matcher r x c2.
Proof.
  induction r as [s| | |r1 IH1 r2 IH2|r1 IH1 r2 IH2|g r IH|g r IH|i r IH];
    intros x c1 c2 Hc; cbn [matcher].
  - destruct (startsWith s (rest x)) eqn:E; [|done].
    apply Hc. exists s. split; [by apply startsWith_prefix | done].
  - destruct (rest x) as [|u tl] eqn:E; [done|].
    destruct (isLineTerminator u); [done|]. eauto using extends_advance_1.
  - destruct (rest x) as [|u tl] eqn:E; [done|].
    destruct (isWhiteSpace u); [|done]. eauto using extends_advance_1.
  - apply IH1. intros y Hy. apply IH2. intros z Hz. apply Hc.
    by eapply extends_trans.
  - by rewrite (IH1 x c1 c2), (IH2 x c1 c2).
  - by apply repeatMatcher_ext.
  - by apply repeatMatcher_ext.
  - apply IH. intros y (w & Hw & Hi). apply Hc. by exists w.
Qed.

Lemma extends_shorter x y :
  extends x y -> endIndex y <> endIndex x -> (length (rest y) < length (rest x))%nat.
Proof.
  intros (w & Hw & Hi) Hne. rewrite Hw, length_app.
  destruct w; simpl in *; lia.
Qed.

Lemma repeatMatcher_fuel m g c :
  (forall x c1 c2, (forall y, extends x y -> c1 y = c2 y) -> m x c1 = m x c2) ->
  forall fuel1 fuel2 x,
    (length (rest x) < fuel1)%nat -> (length (rest x) < fuel2)%nat ->
    repeatMatcher m g c fuel1 x = repeatMatcher m g c fuel2 x.
Proof.
  intros Hm. induction fuel1 as [|fuel1 IH]; intros [|fuel2] x H1 H2; try lia.
  simpl.
  rewrite (Hm x _ (fun y => if Nat.eqb (endIndex y) (endIndex x) then None
                            else repeatMatcher m g c fuel2 y)); [done|].
  intros y Hy. destruct (Nat.eqb_spec (endIndex y) (endIndex x)); [done|].
  pose proof (extends_shorter _ _ Hy n). apply IH; lia.
Qed.

(** A [*] is never cut short: more rounds give the same result. *)
Lemma star_fuel r g x c (more : nat) :
  matcher (RStar g r) x c
  = repeatMatcher (matcher r) g c (S (length (rest x)) + more) x.
Proof.
  cbn [matcher]. apply repeatMatcher_fuel; [apply matcher_ext | lia..].
Qed.

(** [replace] is never cut short either. *)
Lemma replaceFrom_fuel r f : forall fuel1 fuel2 i s,
  (length s < fuel1)%nat -> (length s < fuel2)%nat ->
  replaceFrom fuel1 r f i s = replaceFrom fuel2 r f i s.
Proof.
  induction fuel1 as [|fuel1 IH]; intros [|fuel2] i s H1 H2; try lia. simpl.
  destruct (exec r i s) as [m|] eqn:E; [|done].
  apply exec_progress in E as [Hle Hlt].
  destruct (f (matched m) (groups m)) as [rep|]; [|done]. simpl.
  destruct (Nat.eqb_spec (lastIndex m) (matchIndex m)) as [Heq|Hne].
  - destruct (after m) as [|u s']; [done|]. simpl in Hle.
    by rewrite (IH fuel2) by lia.
  - specialize (Hlt Hne). by rewrite (IH fuel2) by lia.
Qed.

Lemma matcher_min r : forall x c z,
  matcher r x c = Some z ->
  exists y, (endIndex x + minLength r <= endIndex y)%nat /\ c y = Some z.
Proof.
  induction r as [s| | |r1 IH1 r2 IH2|r1 IH1 r2 IH2|g r IH|g r IH|i r IH];
    intros x c z H; cbn [matcher minLength] in *.
  - destruct (startsWith s (rest x)); [|done]. exists (advance x (length s)). done.
  - destruct (rest x) as [|u tl]; [done|]. destruct (isLineTerminator u); [done|].
    exists (advance x 1). done.
  - destruct (rest x) as [|u tl]; [done|]. destruct (isWhiteSpace u); [|done].
    exists (advance x 1). done.
  - apply IH1 in H as (y1 & E1 & H). apply IH2 in H as (y2 & E2 & H).
    exists y2. split; [lia | done].
  - destruct (matcher r1 x c) eqn:E.
    + inversion H; subst. apply IH1 in E as (y & ? & ?). exists y. split; [lia|done].
    + apply IH2 in H as (y & ? & ?). exists y. split; [lia|done].
  - rewrite Nat.add_0_r.
    eapply (repeatMatcher_rel (fun x y => endIndex x <= endIndex y)%nat);
      [lia | lia | | done].
    intros x' c' z' H'. apply IH in H' as (y & ? & ?). exists y. split; [lia|done].
  - rewrite Nat.add_0_r.
    eapply (repeatMatcher_rel (fun x y => endIndex x <= endIndex y)%nat);
      [lia | lia | | done].
    intros x' c' z' H'. apply IH in H' as (y & ? & ?). exists y. split; [lia|done].
  - apply IH in H as (y & ? & ?). exists (setCapture i x y). done.
Qed.

Lemma exec_min r s i m :
  exec r i s = Some m -> (matchIndex m + minLength r <= lastIndex m)%nat.
Proof.
  intros (_ & _ & _ & H)%exec_sound. apply matcher_min in H as (y & Hy & Hz).
  inversion Hz; subst y. done.
Qed.

(** The scanner loop ends on a failed [exec], which leaves [lastIndex] at
    0 for the next call. *)
Lemma scanLoop_resets doc : forall fuel i results,
  (i <= length doc)%nat -> (length doc - i < fuel)%nat ->
  (scanLoop fuel doc i results).2 = O.
Proof.
  induction fuel as [|fuel IH]; intros i results Hi Hfuel; [lia|]. simpl.
  destruct (execAt styledJsxPattern doc i) as [m|] eqn:E; [|done].
  unfold execAt in E. destruct (Nat.ltb_spec (length doc) i); [done|].
  pose proof (exec_min _ _ _ _ E) as Hmin.
  change (minLength styledJsxPattern) with 4%nat in Hmin.
  apply exec_sound in E as (Hs & Hm & Hl & _).
  apply (f_equal length) in Hs. rewrite length_drop, !length_app in Hs.
  apply IH; lia.
Qed.

Lemma scanner_resets (d : TextDocument) :
  (scanLoop (S (length (getText d))) (getText d) O []).2 = O.
Proof. apply scanLoop_resets; lia. Qed.

(** ** Inside a template *)

Lemma matchSpans_bounds r : forall fuel i s a b,
  (a, b) ∈ matchSpans fuel r i s -> (i <= a <= b)%nat.
Proof.
  induction fuel as [|fuel IH]; intros i s a b H; simpl in H.
  { by apply elem_of_nil in H. }
  destruct (exec r i s) as [m|] eqn:E; [|by apply elem_of_nil in H].
  apply exec_sound in E as (Hs & Hi & Hl & _).
  apply elem_of_cons in H as [[= -> ->]|H]; [lia|].
  destruct (Nat.eqb (lastIndex m) (matchIndex m)).
  - destruct (after m) as [|u s']; [by apply elem_of_nil in H|].
    apply IH in H. lia.
  - apply IH in H. lia.
Qed.

(** Where every match is replaced by as many spaces, a unit inside a
    match becomes a space and a unit outside every match is kept. *)
Lemma replaceFrom_spans r f :
  (0 < minLength r)%nat ->
  (forall j s' m rep, exec r j s' = Some m ->
     f (matched m) (groups m) = Normal rep ->
     rep = replicate (length (matched m)) SPACE) ->
  forall fuel i s out,
    replaceFrom fuel r f i s = Normal out ->
    forall p u, s !! p = Some u ->
      (inSpan (i + p) (matchSpans fuel r i s) -> out !! p = Some SPACE)
      /\ (~ inSpan (i + p) (matchSpans fuel r i s) -> out !! p = Some u).
Proof.
  intros Hmin Hf. induction fuel as [|fuel IH]; intros i s out H p u Hp; simpl in *.
  { inversion H; subst. split; [|done]. intros (a & b & Hin & _).
    by apply elem_of_nil in Hin. }
  destruct (exec r i s) as [m|] eqn:E.
  2:{ inversion H; subst. split; [|done]. intros (a & b & Hin & _).
      by apply elem_of_nil in Hin. }
  destruct (f (matched m) (groups m)) as [rep|] eqn:Erep; [|done].
  apply (Hf _ _ _ _ E) in Erep. rewrite bind_normal in H.
  pose proof (exec_min _ _ _ _ E) as Hlen.
  apply exec_sound in E as (Hs & Hi & Hl & _).
  destruct (Nat.eqb_spec (lastIndex m) (matchIndex m)) as [?|_]; [lia|].
  destruct (replaceFrom fuel r f (lastIndex m) (after m)) as [tail|] eqn:Et; [|done].
  rewrite bind_normal in H. inversion H; subst out; clear H.
  assert (length rep = length (matched m)) as Hrep by (by rewrite Erep, length_replicate).
  rewrite Hs in Hp.
  destruct (decide (p < length (skipped m))%nat) as [H1|H1].
  { rewrite lookup_app_l in Hp |- * by done.
    assert (~ inSpan (i + p)
              ((matchIndex m, lastIndex m)
               :: matchSpans fuel r (lastIndex m) (after m))) as Hout.
    { intros (a & b & [[= -> ->]|Hin]%elem_of_cons & Hab); [lia|].
      apply matchSpans_bounds in Hin. lia. }
    split; [done | by intros _]. }
  rewrite lookup_app_r in Hp |- * by lia.
  destruct (decide (p - length (skipped m) < length (matched m))%nat) as [H2|H2].
  { rewrite lookup_app_l by lia. split.
    - intros _. rewrite Erep. apply lookup_replicate_2. lia.
    - intros Hout. exfalso. apply Hout.
      exists (matchIndex m), (lastIndex m). split; [by left | lia]. }
  rewrite lookup_app_r in Hp |- * by lia. rewrite Hrep.
  destruct (IH _ _ _ Et _ _ Hp) as [IH1 IH2].
  replace (lastIndex m + (p - length (skipped m) - length (matched m)))%nat
    with (i + p)%nat in IH1, IH2 by lia.
  split.
  - intros (a & b & [[= -> ->]|Hin]%elem_of_cons & Hab); [lia|].
    apply IH1. by exists a, b.
  - intros Hout. apply IH2. intros (a & b & Hin & Hab). apply Hout.
    exists a, b. split; [by right | done].
Qed.

Lemma blankExpression_spaces j s m rep :
  exec expressionPattern j s = Some m ->
  blankExpression (matched m) (groups m) = Normal rep ->
  rep = replicate (length (matched m)) SPACE.
Proof.
  intros [[Hc HF]|Hc]%expressionPattern_capture; unfold blankExpression;
    rewrite Hc; simpl; [|done].
  rewrite blank_spec. intros [= <-]. clear Hc.
  induction HF as [|u w Hu _ IH]; [done|]. simpl. rewrite <- IH.
  unfold blankUnit at 1. by rewrite Hu.
Qed.

(** The CSS of a template, when the masker has one: the units inside an
    expression are spaces, the others are those of the text. *)
Lemma replace_expression_spans css out p u :
  replace expressionPattern blankExpression css = Normal out ->
  css !! p = Some u ->
  (inSpan p (expressionSpans css) -> out !! p = Some SPACE)
  /\ (~ inSpan p (expressionSpans css) -> out !! p = Some u).
Proof.
  intros H Hp.
  apply (replaceFrom_spans expressionPattern blankExpression) with (i := O) (s := css)
                                                                   (fuel := S (length css));
    [cbn; lia | apply blankExpression_spaces | done | done].
Qed.

Lemma ordered_elem ts : forall from len t,
  ordered from ts len -> t ∈ ts -> from <= start t /\ start t <= end_ t <= len.
Proof.
  induction ts as [|t0 ts IH]; intros from len t Ho Hin.
  { by apply elem_of_nil in Hin. }
  destruct Ho as (H1 & H2 & H3).
  apply elem_of_cons in Hin as [->|Hin].
  - pose proof (ordered_last _ _ _ H2 H3). lia.
  - destruct (IH _ _ _ H3 Hin). lia.
Qed.

(** The piece of a template among the pieces. *)
Lemma pieces_inside text ts : forall t piece t' p,
  0 <= start t <= end_ t -> ordered (end_ t) ts (Z.of_nat (length text)) ->
  pieces text t ts = Normal piece ->
  t' ∈ t :: ts -> (Z.to_nat (start t') <= p < Z.to_nat (end_ t'))%nat ->
  exists css,
    replace expressionPattern blankExpression (slice text (start t') (end_ t'))
    = Normal css
    /\ piece !! (p - Z.to_nat (start t))%nat = css !! (p - Z.to_nat (start t'))%nat.
Proof.
  induction ts as [|next ts IH]; intros t piece t' p Ht Ho H Hin Hp;
    cbn [pieces] in H.
  - apply list_elem_of_singleton in Hin. subst t'.
    destruct (replace expressionPattern blankExpression _) as [css|] eqn:Ecss; [|done].
    inversion H; subst. by exists piece.
  - destruct (replace expressionPattern blankExpression _) as [css|] eqn:Ecss; [|done].
    rewrite bind_normal, blank_spec, bind_normal in H.
    destruct (pieces text next ts) as [tail|] eqn:Etail; [|done].
    inversion H; subst; clear H. pose proof Ho as (H1 & H2 & H3).
    pose proof (ordered_last _ _ _ H2 H3) as Hl.
    pose proof (replace_expression_length _ _ Ecss) as Hcss.
    rewrite slice_length in Hcss by lia.
    apply elem_of_cons in Hin as [->|Hin].
    + exists css. split; [done|]. by rewrite lookup_app_l by lia.
    + pose proof (ordered_elem _ _ _ _ Ho Hin) as Hel.
      assert (start next <= start t') as Hnext.
      { apply elem_of_cons in Hin as [->|Hin']; [lia|].
        pose proof (ordered_elem _ _ _ _ H3 Hin'). lia. }
      destruct (IH next tail t' p) as (css' & Hc' & Hlook); [lia|done|done|done|done|].
      exists css'. split; [done|].
      rewrite lookup_app_r by lia.
      rewrite lookup_app_r by (rewrite length_fmap, slice_length by lia; lia).
      rewrite length_fmap, slice_length, Hcss by lia. rewrite <- Hlook. f_equal. lia.
Qed.

(** X10: for templates in source order and a synthetic document, a unit
    of a template that is inside an expression of its CSS is a space and any
    other unit of the template is that of the document. *)
Lemma inside_template_masked {Stylesheet} (d : TextDocument) ts
    (stylesheets : LanguageModelCache Stylesheet) sj t (p : nat) (u : N) :
  ordered 0 ts (Z.of_nat (length (getText d))) ->
  replaceAllWithSpacesExceptCss d ts stylesheets = Normal sj ->
  t ∈ ts -> start t <= Z.of_nat p < end_ t ->
  getText d !! p = Some u ->
  let spans := expressionSpans (slice (getText d) (start t) (end_ t)) in
  (inSpan (p - Z.to_nat (start t)) spans -> getText (cssDocument sj) !! p = Some SPACE)
  /\ (~ inSpan (p - Z.to_nat (start t)) spans -> getText (cssDocument sj) !! p = Some u).
Proof.
  intros Ho H%replaceAll_text Hin Hp Hu. revert H.
  generalize (getText (cssDocument sj)) as out. intros out H.
  pose proof (ordered_elem _ _ _ _ Ho Hin) as Hel.
  destruct ts as [|t0 ts]; [done|]. destruct Ho as (H1 & H2 & H3).
  rewrite maskedText_pieces in H.
  destruct (pieces (getText d) t0 ts) as [piece|] eqn:E; [|done].
  rewrite bind_normal in H. inversion H; subst out; clear H.
  pose proof (ordered_last _ _ _ H2 H3) as Hl.
  pose proof (pieces_length _ _ _ _ (conj H1 H2) H3 E) as Hlen.
  assert (end_ t <= end_ (List.last ts t0)) as Hlast.
  { apply elem_of_cons in Hin as [->|Hin]; [lia|].
    clear -Hin H2 H3. revert t0 H2 H3.
    induction ts as [|t1 ts IH]; intros t0 H2 H3; [by apply elem_of_nil in Hin|].
    rewrite last_cons_cons. destruct H3 as (H4 & H5 & H6).
    apply elem_of_cons in Hin as [->|Hin].
    - pose proof (ordered_last _ _ _ H5 H6). lia.
    - by apply IH. }
  assert (start t0 <= start t) as Hfirst.
  { apply elem_of_cons in Hin as [->|Hin']; [lia|].
    pose proof (ordered_elem _ _ _ _ H3 Hin'). lia. }
  destruct (pieces_inside _ _ _ _ t p (conj H1 H2) H3 E Hin) as (css & Hcss & Hlook);
    [lia|].
  cbv zeta.
  rewrite lookup_app_r by (rewrite length_fmap, slice_length by lia; lia).
  rewrite length_fmap, slice_length by lia.
  replace (p - (Z.to_nat (start t0) - Z.to_nat 0))%nat
    with (p - Z.to_nat (start t0))%nat by lia.
  rewrite lookup_app_l by lia. rewrite Hlook.
  apply replace_expression_spans; [done|].
  rewrite slice_lookup by lia. rewrite <- Hu. f_equal. lia.
Qed.

(** ** The older copy *)

(** The tag [css.foo] contains [css] and is not equal to it. *)
Example legacy_tag_is_compared :
  let template :=
    mkLocated (token NoSubstitutionTemplateLiteral 7 12)
      [ tagged 0 12 [ node 0 7 [ token Identifier 0 3; token Identifier 4 7 ];
                      token NoSubstitutionTemplateLiteral 7 12 ] ] in
  isStyledJsxTaggedTemplate (lit memberText) template = Normal true
  /\ Legacy.isStyledJsxTaggedTemplate (lit memberText) template = Normal false.
Proof. split; by vm_compute. Qed.

(** Without the [try], the fault of a node ends the traversal. *)
Example legacy_walk_propagates :
  (Legacy.walk (collect (lit twoText)) [] (sourceFile (lit twoText) faultyFile)
     (mkWalk [] [])).2
  = Throw (HostError "Error: Debug Failure.").
Proof. by vm_compute. Qed.

(** ** The theorems on the sample files *)

(** The pattern is greedy: in [css`.b { color: ${color} }`] the match of
    the interpolation runs to the last brace of the line, and the brace that
    closes the rule is blanked with it. *)
Example interpolation_is_blanked :
  expressionSpans (lit ".b { color: ${color} }") = [(12, 22)%nat]
  /\ maskedText (lit "css`.b { color: ${color} }`") [mkTemplate 4 26]
     = Normal (lit "    .b { color:" ++ replicate 12 SPACE).
Proof. split; by vm_compute. Qed.

(** [<style jsx>{`a{}`}</style>]: the scanner stops after the opening tag,
    the locator finds the template, the masker keeps its text. *)
Example style_element_is_masked :
  getApproximateStyledJsxOffsets (document styleText) = [11]
  /\ findStyledJsxTaggedTemplate sampleParser (document styleText) [11]
     = Normal [mkTemplate 13 16]
  /\ maskedText (lit styleText) [mkTemplate 13 16]
     = Normal (replicate 13 SPACE ++ lit "a{}" ++ replicate 10 SPACE).
Proof. repeat split; by vm_compute. Qed.

(** Offset 0 of the file with a line feed: the [a] becomes a space. *)
Lemma outside_templates_blank_witness :
  getText (cssDocument (synthetic newlineDocument [mkTemplate 6 7])) !! 0%nat
  = Some SPACE.
Proof.
  apply (outside_templates_blank newlineDocument [mkTemplate 6 7] sampleCache
           (synthetic newlineDocument [mkTemplate 6 7]) 0 97%N).
  - cbn. lia.
  - reflexivity.
  - reflexivity.
  - intros t Ht. apply list_elem_of_singleton in Ht. subst t. cbn. lia.
Defined.

(** The statement whose iteration faults. *)
Lemma traversal_catches_faults_witness :
  walk (collect (getText (document twoText))) [] faultyNode (mkWalk [] [])
  = (consoleLog "Error: Debug Failure." (mkWalk [] []), Normal tt).
Proof.
  apply (proj1 (proj2 (traversal_catches_faults faultyParser (document twoText) []))
           [] faultyNode (mkWalk [] []) (mkWalk [] [])
           (HostError "Error: Debug Failure.")).
  - reflexivity.
  - reflexivity.
Defined.

(** The file [const x = 1;]. *)
Lemma no_marker_no_result_witness :
  getStyledJsx sampleParser (document plainText) sampleCache = Normal None
  /\ onHover sampleService sampleParser sampleCache (sampleDocuments plainText)
       "file:///a.jsx" 0 = Normal Null.
Proof.
  pose proof (no_marker_no_result sampleService sampleParser sampleCache
                (sampleDocuments plainText) "file:///a.jsx" (document plainText)
                None 0 0 tt tt "x" (mkConnection ∅ [])) as H.
  destruct H as (_ & H1 & H2 & _).
  - vm_compute. reflexivity.
  - vm_compute. reflexivity.
  - split; assumption.
Defined.

(** The exception of the masker on [css`a&&b`]. *)
Lemma masker_called_with_templates_witness :
  TypeError "replace" <> TypeError "start" /\ TypeError "replace" <> TypeError "end".
Proof.
  apply (proj1 (proj2 (masker_called_with_templates sampleParser
                         (document operatorText) sampleCache 0))
           (mkTemplate 4 8) [] (TypeError "replace")).
  vm_compute. reflexivity.
Defined.

(** A client with snippet support, and a rename in [css`a`;css`bc`]. *)
Lemma rename_off_but_answered_witness :
  renameProvider
    (mkCapabilities SyncFull (Some (mkCompletionOptions false))
                    true true true true true true false true, true).1 = false
  /\ onRenameRequest sampleService sampleParser sampleCache (sampleDocuments twoText)
       "file:///a.jsx" 4 "x"
     = Normal (Result (doRename sampleService
                         (cssDocument (synthetic (document twoText)
                                         [mkTemplate 4 5; mkTemplate 11 13]))
                         4 "x"
                         (stylesheet (synthetic (document twoText)
                                        [mkTemplate 4 5; mkTemplate 11 13])))).
Proof.
  pose proof (rename_off_but_answered sampleService sampleParser sampleCache
                (sampleDocuments twoText) "file:///a.jsx" 4 "x") as (H1 & _ & _ & H4).
  split.
  - apply (H1 sampleCapabilities). vm_compute. reflexivity.
  - apply (H4 (document twoText)).
    + vm_compute. reflexivity.
    + vm_compute. reflexivity.
Defined.

(** * Further properties *)

(** ** The scanner *)

Lemma execAt_sound r doc i m :
  execAt r doc i = Some m ->
  (i <= matchIndex m)%nat
  /\ (matchIndex m + minLength r <= lastIndex m)%nat
  /\ (lastIndex m <= length doc)%nat
  /\ take (length (matched m)) (drop (matchIndex m) doc) = matched m
  /\ drop (lastIndex m) doc = after m
  /\ matcher r (mkState (matchIndex m) (matched m ++ after m) []) Some
     = Some (mkState (lastIndex m) (after m) (groups m)).
Proof.
  unfold execAt. destruct (Nat.ltb_spec (length doc) i); [done|]. intros E.
  pose proof (exec_min _ _ _ _ E) as Hmin.
  apply exec_sound in E as (Hs & Hi & Hl & Hm).
  assert (doc = (take i doc ++ skipped m) ++ matched m ++ after m) as Hdoc.
  { rewrite <- app_assoc, <- Hs. by rewrite take_drop. }
  assert (length (take i doc ++ skipped m) = matchIndex m) as Hpre.
  { rewrite length_app, length_take. lia. }
  split; [lia|]. split; [done|]. split.
  { rewrite (f_equal length Hdoc), !length_app, length_take. lia. }
  split; [|split; [|done]].
  - rewrite Hdoc at 1. rewrite <- Hpre, drop_app_length. by rewrite take_app_length.
  - rewrite Hdoc at 1. rewrite app_assoc.
    replace (lastIndex m) with (length ((take i doc ++ skipped m) ++ matched m))
      by (rewrite length_app; lia).
    by rewrite drop_app_length.
Qed.

Lemma scanLoop_scan doc : forall fuel i results,
  exists more, (scanLoop fuel doc i results).1 = results ++ more /\ Scan doc i more.
Proof.
  induction fuel as [|fuel IH]; intros i results; simpl.
  { exists []. rewrite app_nil_r. split; [done | constructor]. }
  destruct (execAt styledJsxPattern doc i) as [m|] eqn:E.
  - destruct (IH (lastIndex m) (results ++ [Z.of_nat (lastIndex m)])) as (more & -> & Hs).
    exists (Z.of_nat (lastIndex m) :: more). rewrite <- app_assoc. split; [done|].
    by econstructor.
  - exists []. rewrite app_nil_r. split; [done | constructor].
Qed.

Lemma getApproximateStyledJsxOffsets_scan (d : TextDocument) :
  Scan (getText d) 0 (getApproximateStyledJsxOffsets d).
Proof.
  unfold getApproximateStyledJsxOffsets.
  by destruct (scanLoop_scan (getText d) (S (length (getText d))) 0 [])
    as (more & -> & Hs).
Qed.

Lemma Scan_bounds doc i os :
  Scan doc i os ->
  Forall (fun o => Z.of_nat i + 4 <= o <= Z.of_nat (length doc)) os
  /\ forall j k oj ok, os !! j = Some oj -> os !! k = Some ok -> (j < k)%nat ->
       oj + 4 <= ok.
Proof.
  induction 1 as [i|i m more E Hs [IH1 IH2]].
  { split; [constructor|]. intros j k oj ok Hj. by rewrite lookup_nil in Hj. }
  apply execAt_sound in E as (Hi & Hmin & Hlen & _).
  change (minLength styledJsxPattern) with 4%nat in Hmin.
  split.
  - constructor; [lia|]. eapply Forall_impl; [apply IH1|]. simpl. lia.
  - intros j k oj ok Hj Hk Hjk. destruct k as [|k]; [lia|]. simpl in Hk.
    destruct j as [|j]; simpl in Hj.
    + inversion Hj; subst oj. eapply Forall_lookup_1 in IH1; [|apply Hk].
      simpl in IH1. lia.
    + eapply IH2; eauto. lia.
Qed.

(** X1: the candidate offsets are in increasing order, at least four
    units apart (no match is shorter than [css`]), the first one is at least
    4 and none is beyond the end of the text. *)
Theorem offsets_increase (d : TextDocument) :
  Forall (fun o => 4 <= o <= Z.of_nat (length (getText d)))
         (getApproximateStyledJsxOffsets d)
  /\ forall j k oj ok,
       getApproximateStyledJsxOffsets d !! j = Some oj ->
       getApproximateStyledJsxOffsets d !! k = Some ok ->
       (j < k)%nat -> oj + 4 <= ok.
Proof.
  destruct (Scan_bounds _ _ _ (getApproximateStyledJsxOffsets_scan d)) as [H1 H2].
  split; [|done]. eapply Forall_impl; [apply H1|]. simpl. lia.
Qed.


Lemma last_snoc_inv {A} (s : list A) (u : A) :
  last s = Some u -> exists s', s = s' ++ [u].
Proof.
  intros H. destruct s as [|a s] using rev_ind; [done|].
  rewrite last_snoc in H. inversion H; subst. eauto.
Qed.

(** A match of a pattern that ends with a unit in [P] consumes such a
    unit last. *)
Lemma matcher_endsWith P r : forall x c z,
  endsWith P r -> matcher r x c = Some z ->
  exists y w u, rest x = w ++ u :: rest y /\ P u
                /\ endIndex y = (endIndex x + length w + 1)%nat /\ c y = Some z.
Proof.
  induction r as [s| | |r1 IH1 r2 IH2|r1 IH1 r2 IH2|g r IH|g r IH|i r IH];
    intros x c z HP H; cbn [matcher endsWith] in *; try done.
  - destruct (last s) as [u|] eqn:El; [|done].
    destruct (startsWith s (rest x)) eqn:E; [|done].
    apply last_snoc_inv in El as (s' & ->). apply startsWith_prefix in E.
    exists (advance x (length (s' ++ [u]))), s', u.
    rewrite <- app_assoc in E. simpl in E. rewrite length_app in *. simpl in *.
    split; [done|]. split; [done|]. split; [lia | done].
  - destruct HP as [HP|[-> HP]].
    + apply matcher_sound in H as (y1 & (w1 & Hw1 & Hi1) & H).
      apply IH2 in H as (y & w & u & Hw & Hu & Hi & H); [|done].
      exists y, (w1 ++ w), u. rewrite Hw1, Hw, length_app, <- app_assoc.
      split; [done|]. split; [done|]. split; [lia | done].
    + apply IH1 in H as (y & w & u & Hw & Hu & Hi & H); [|done].
      cbn [matcher startsWith length] in H.
      exists (advance y 0), w, u. simpl. rewrite drop_0.
      split; [done|]. split; [done|]. split; [lia | done].
  - destruct HP as [HP1 HP2]. destruct (matcher r1 x c) eqn:E.
    + inversion H; subst. by apply IH1.
    + by apply IH2.
  - apply IH in H as (y & w & u & Hw & Hu & Hi & H); [|done].
    by exists (setCapture i x y), w, u.
Qed.

Lemma Scan_last doc P i os :
  endsWith P styledJsxPattern ->
  Scan doc i os ->
  Forall (fun o => exists u, doc !! Z.to_nat (o - 1) = Some u /\ P u) os.
Proof.
  intros HP. induction 1 as [i|i m more E Hs IH]; constructor; [|done].
  apply execAt_sound in E as (Hi & Hmin & Hlen & Hmatched & Hafter & Hm).
  apply (matcher_endsWith P) in Hm as (y & w & u & Hw & Hu & Hy & [= ->]);
    [|done].
  simpl in *. exists u. split; [|done].
  change (u :: after m) with ([u] ++ after m) in Hw.
  rewrite app_assoc in Hw. apply app_inv_tail in Hw.
  replace (Z.to_nat (Z.of_nat (lastIndex m) - 1))
    with (matchIndex m + length w)%nat by lia.
  rewrite <- (lookup_drop doc), <- (lookup_take_lt _ (length (matched m)))
    by (rewrite Hw, length_app; simpl; lia).
  rewrite Hmatched, Hw. by rewrite lookup_app_r, Nat.sub_diag by lia.
Qed.

(** X2: every candidate offset is just after a backtick or a [>] of the
    text: the scanner stops where the CSS of a tagged template or of a
    [style] element may begin. *)
Theorem offsets_follow_openers (d : TextDocument) (o : Z) :
  o ∈ getApproximateStyledJsxOffsets d ->
  getText d !! Z.to_nat (o - 1) = Some 96%N
  \/ getText d !! Z.to_nat (o - 1) = Some 62%N.
Proof.
  intros Hin.
  pose proof (Scan_last (getText d) (fun u => u = 96%N \/ u = 62%N) 0
                (getApproximateStyledJsxOffsets d)) as H.
  eapply Forall_forall in H as (u & Hu & [->| ->]); eauto.
  - cbn. tauto.
  - apply getApproximateStyledJsxOffsets_scan.
Qed.


(** X4: the pattern object is shared by all calls, and a call leaves its
    [lastIndex] at 0: the offsets of a document do not depend on the
    documents scanned before it. *)
Theorem scans_do_not_interfere (d1 d2 : TextDocument) :
  let lastIndex1 := (scanLoop (S (length (getText d1))) (getText d1) O []).2 in
  (scanLoop (S (length (getText d2))) (getText d2) lastIndex1 []).1
  = getApproximateStyledJsxOffsets d2.
Proof. cbv zeta. rewrite scanLoop_resets by lia. done. Qed.

(** ** The locator on a tree without faults *)












(** ** The masker on templates in source order *)

Lemma slice_app (s : list N) (a b c : Z) :
  0 <= a <= b -> b <= c -> c <= Z.of_nat (length s) ->
  slice s a b ++ slice s b c = slice s a c.
Proof.
  intros Hab Hbc Hc. rewrite !slice_inside by lia.
  replace (drop (Z.to_nat b) s)
    with (drop (Z.to_nat b - Z.to_nat a) (drop (Z.to_nat a) s))
    by (rewrite drop_drop; f_equal; lia).
  rewrite take_take_drop. f_equal. lia.
Qed.

Lemma slice_all (s : list N) : slice s 0 (Z.of_nat (length s)) = s.
Proof.
  rewrite slice_inside by lia. rewrite drop_0. apply take_ge. lia.
Qed.

(** The ranges and the code around them make up the text. *)
Lemma rawPieces_text text ts : forall t,
  0 <= start t <= end_ t -> ordered (end_ t) ts (Z.of_nat (length text)) ->
  rawPieces text t ts = slice text (start t) (end_ (List.last ts t)).
Proof.
  induction ts as [|next ts IH]; intros t Ht Ho; cbn [rawPieces].
  { by rewrite app_nil_r. }
  destruct Ho as (H1 & H2 & H3). pose proof (ordered_last _ _ _ H2 H3).
  rewrite IH by (done || lia). rewrite last_cons_cons.
  rewrite !slice_app by lia. done.
Qed.

Lemma isLineTerminator_blankUnit (s : list N) :
  isLineTerminator <$> (blankUnit <$> s) = isLineTerminator <$> s.
Proof.
  rewrite <- list_fmap_compose. apply list_fmap_ext. intros _ u _. simpl.
  unfold blankUnit. by destruct (isLineTerminator u) eqn:E.
Qed.

(** Replacing the matches of a pattern that consumes no line terminator
    by as many spaces leaves the line terminators where they are. *)
Lemma replaceFrom_lines r f :
  (0 < minLength r)%nat ->
  consumes (fun u => isLineTerminator u = false) r ->
  (forall j s' m rep, exec r j s' = Some m ->
     f (matched m) (groups m) = Normal rep ->
     rep = replicate (length (matched m)) SPACE) ->
  forall fuel i s out,
    replaceFrom fuel r f i s = Normal out ->
    isLineTerminator <$> out = isLineTerminator <$> s.
Proof.
  intros Hmin Hcons Hf. induction fuel as [|fuel IH]; intros i s out H; simpl in H.
  { by inversion H. }
  destruct (exec r i s) as [m|] eqn:E; [|by inversion H].
  destruct (f (matched m) (groups m)) as [rep|] eqn:Erep; [|done].
  apply (Hf _ _ _ _ E) in Erep. rewrite bind_normal in H.
  pose proof (exec_min _ _ _ _ E) as Hlen.
  apply exec_sound in E as (Hs & Hi & Hl & Hm).
  destruct (Nat.eqb_spec (lastIndex m) (matchIndex m)) as [?|_]; [lia|].
  destruct (replaceFrom fuel r f (lastIndex m) (after m)) as [tail|] eqn:Et; [|done].
  rewrite bind_normal in H. inversion H; subst out; clear H.
  apply (matcher_units _ _ _ _ _ Hcons) in Hm as (y & (w & Hw & _ & HF) & [= ->]).
  simpl in Hw. apply app_inv_tail in Hw. subst w.
  rewrite (f_equal (fmap isLineTerminator) Hs), !fmap_app, (IH _ _ _ Et).
  f_equal. f_equal.
  rewrite Erep, fmap_replicate. clear -HF.
  induction HF as [|u w Hu _ IHw]; [done|]. simpl. by rewrite Hu, IHw.
Qed.

Lemma replace_expression_lines css out :
  replace expressionPattern blankExpression css = Normal out ->
  isLineTerminator <$> out = isLineTerminator <$> css.
Proof.
  apply replaceFrom_lines; [cbn; lia | | apply blankExpression_spaces].
  cbn. repeat split; try done; repeat constructor; done.
Qed.

Lemma pieces_lines text ts : forall t piece,
  pieces text t ts = Normal piece ->
  isLineTerminator <$> piece = isLineTerminator <$> rawPieces text t ts.
Proof.
  induction ts as [|next ts IH]; intros t piece H; cbn [pieces rawPieces] in *.
  - destruct (replace expressionPattern blankExpression _) as [css|] eqn:E; [|done].
    inversion H; subst. rewrite app_nil_r. by apply replace_expression_lines.
  - destruct (replace expressionPattern blankExpression _) as [css|] eqn:E; [|done].
    rewrite bind_normal, blank_spec, bind_normal in H.
    destruct (pieces text next ts) as [tail|] eqn:Et; [|done].
    inversion H; subst. rewrite !fmap_app, isLineTerminator_blankUnit.
    by rewrite (replace_expression_lines _ _ E), (IH _ _ Et).
Qed.

Lemma maskedText_lines text ts out :
  ordered 0 ts (Z.of_nat (length text)) ->
  maskedText text ts = Normal out ->
  isLineTerminator <$> out = isLineTerminator <$> text.
Proof.
  intros Ho H. destruct ts as [|t ts]; [done|]. destruct Ho as (H1 & H2 & H3).
  rewrite maskedText_pieces in H.
  destruct (pieces text t ts) as [piece|] eqn:E; [|done].
  rewrite bind_normal in H. inversion H; subst out; clear H.
  pose proof (ordered_last _ _ _ H2 H3) as Hl.
  rewrite !fmap_app, !isLineTerminator_blankUnit, (pieces_lines _ _ _ _ E).
  rewrite rawPieces_text by (done || lia).
  rewrite <- !fmap_app, !slice_app by lia. by rewrite slice_all.
Qed.

(** X9: for templates in source order, the synthetic document has its
    line terminators at the offsets where the document has them and nowhere
    else: a line and a column of the one are those of the other. *)
Theorem line_terminators_stay {Stylesheet} (d : TextDocument)
    (ts : list StyledJsxTaggedTemplate)
    (stylesheets : LanguageModelCache Stylesheet) (sj : StyledJsx Stylesheet) :
  ordered 0 ts (Z.of_nat (length (getText d))) ->
  replaceAllWithSpacesExceptCss d ts stylesheets = Normal sj ->
  isLineTerminator <$> getText (cssDocument sj) = isLineTerminator <$> getText d.
Proof. intros Ho H%replaceAll_text. by eapply maskedText_lines. Qed.

(** ** When the masker returns *)

Lemma contains_suffix (a s p : list N) : contains s p -> contains (a ++ s) p.
Proof. intros (x & y & ->). exists (a ++ x), y. by rewrite <- app_assoc. Qed.

Lemma contains_slice (s : list N) (a b : Z) (p : list N) :
  contains (slice s a b) p -> contains s p.
Proof.
  unfold slice. destruct (_ <=? _).
  { intros (x & y & H). symmetry in H. apply app_eq_nil in H as [-> H].
    apply app_eq_nil in H as [-> ->]. by exists [], s. }
  set (n := Z.to_nat _). set (k := Z.to_nat _). intros (x & y & H).
  exists (take k s ++ x), (y ++ drop n (drop k s)).
  rewrite <- (take_drop k s) at 1. rewrite <- (take_drop n (drop k s)) at 1.
  rewrite H. by rewrite <- !app_assoc.
Qed.

(** A match of [expressionPattern] that leaves the first capture undefined
    is [&&] or [||]. *)
Lemma expressionPattern_operator i s m :
  exec expressionPattern i s = Some m ->
  capture 1 (groups m) = None ->
  contains s (lit "&&") \/ contains s (lit "||").
Proof.
  intros H Hc. pose proof (expressionPattern_capture _ _ _ H) as Hcap.
  apply exec_sound in H as (Hs & _ & Hl & Hm).
  unfold expressionPattern in Hm. cbn [matcher] in Hm.
  match type of Hm with
  | match ?t with _ => _ end = _ => destruct t as [z|] eqn:E1
  end.
  - exfalso. inversion Hm; subst z; clear Hm.
    apply matcher_sound in E1 as (y & _ & [= _ _ Hg]).
    rewrite <- Hg in Hc. by simpl in Hc.
  - cbn [rest] in Hm. rewrite Hs.
    destruct (startsWith (lit "&&") (matched m ++ after m)) eqn:E2.
    { left. apply contains_suffix. apply startsWith_prefix in E2.
      by exists [], (drop (length (lit "&&")) (matched m ++ after m)). }
    destruct (startsWith (lit "||") (matched m ++ after m)) eqn:E3; [|done].
    right. apply contains_suffix. apply startsWith_prefix in E3.
    by exists [], (drop (length (lit "||")) (matched m ++ after m)).
Qed.

Lemma replaceFrom_operatorFree : forall fuel i s,
  includes s (lit "&&") = false -> includes s (lit "||") = false ->
  exists out, replaceFrom fuel expressionPattern blankExpression i s = Normal out.
Proof.
  induction fuel as [|fuel IH]; intros i s Ha Ho; simpl; [by eexists|].
  destruct (exec expressionPattern i s) as [m|] eqn:E; [|by eexists].
  assert (~ contains s (lit "&&")) as Ha'.
  { rewrite <- includes_contains. by rewrite Ha. }
  assert (~ contains s (lit "||")) as Ho'.
  { rewrite <- includes_contains. by rewrite Ho. }
  pose proof (exec_min _ _ _ _ E) as Hmin.
  change (minLength expressionPattern) with 2%nat in Hmin.
  destruct (expressionPattern_capture _ _ _ E) as [[Hc _]|Hc].
  2:{ by destruct (expressionPattern_operator _ _ _ E Hc). }
  assert (blankExpression (matched m) (groups m) = Normal (blankUnit <$> matched m))
    as -> by (unfold blankExpression; rewrite Hc; apply blank_spec).
  rewrite bind_normal.
  destruct (Nat.eqb_spec (lastIndex m) (matchIndex m)) as [?|_]; [lia|].
  apply exec_sound in E as (Hs & _).
  destruct (IH (lastIndex m) (after m)) as [tail ->]; [| |by eexists].
  - destruct (includes (after m) (lit "&&")) eqn:E1; [|done].
    apply includes_contains in E1. destruct Ha'. rewrite Hs.
    by do 2 apply contains_suffix.
  - destruct (includes (after m) (lit "||")) eqn:E1; [|done].
    apply includes_contains in E1. destruct Ho'. rewrite Hs.
    by do 2 apply contains_suffix.
Qed.

Lemma pieces_operatorFree text ts : forall t,
  Forall (fun t => includes (slice text (start t) (end_ t)) (lit "&&") = false
                   /\ includes (slice text (start t) (end_ t)) (lit "||") = false)
         (t :: ts) ->
  exists piece, pieces text t ts = Normal piece.
Proof.
  induction ts as [|next ts IH]; intros t Hall; cbn [pieces];
    inversion Hall as [|? ? [Ha Ho] Hrest]; subst;
    destruct (replaceFrom_operatorFree
                (S (length (slice text (start t) (end_ t)))) 0 _ Ha Ho) as [css Hcss];
    unfold replace; rewrite Hcss, bind_normal; [by eexists|].
  rewrite blank_spec, bind_normal. destruct (IH _ Hrest) as [tail ->]. by eexists.
Qed.

(** X11: the masker returns for every non-empty list of templates none of
    which has [&&] or [||] in its text. *)
Theorem masker_returns_without_operators {Stylesheet} (d : TextDocument)
    (ts : list StyledJsxTaggedTemplate) (stylesheets : LanguageModelCache Stylesheet) :
  ts <> [] ->
  Forall (fun t =>
            includes (slice (getText d) (start t) (end_ t)) (lit "&&") = false
            /\ includes (slice (getText d) (start t) (end_ t)) (lit "||") = false) ts ->
  exists sj, replaceAllWithSpacesExceptCss d ts stylesheets = Normal sj.
Proof.
  intros Hne Hall. destruct ts as [|t ts]; [done|].
  unfold replaceAllWithSpacesExceptCss. rewrite maskedText_pieces.
  destruct (pieces_operatorFree _ _ _ Hall) as [piece ->]. by eexists.
Qed.

(** ** The two entry points *)

(** X15: the only exception that leaves [getStyledJsx] or
    [getStyledJsxUnderCursor] is the [TypeError] of the replacement callback
    of the masker: the scanner and the locator raise nothing, a fault of
    the traversal is caught inside [walk], and the masker is never called
    with an empty list.  The parser and the stylesheet cache are functions
    here; what the CSS language service raises when a handler calls it
    afterwards is not part of the statement. *)
Theorem extraction_raises_only_the_masker_error {Stylesheet}
    (createSourceFile : Parser) (d : TextDocument)
    (stylesheets : LanguageModelCache Stylesheet) (c : Z) (e : Error) :
  getStyledJsx createSourceFile d stylesheets = Throw e
  \/ getStyledJsxUnderCursor createSourceFile d stylesheets c = Throw e ->
  e = TypeError "replace".
Proof.
  unfold getStyledJsx, getStyledJsxUnderCursor. intros [H|H].
  - destruct (0 <? _); [|done].
    destruct (findStyledJsxTaggedTemplate_total createSourceFile d
                (getApproximateStyledJsxOffsets d)) as [ts Hts].
    rewrite Hts, bind_normal in H. destruct ts as [|t ts]; [done|].
    destruct (0 <? _); [|done].
    destruct (replaceAllWithSpacesExceptCss d (t :: ts) stylesheets) eqn:E; [done|].
    inversion H; subst. by eapply replaceAll_throws.
  - destruct (findStyledJsxTaggedTemplate_total createSourceFile d [c]) as [ts Hts].
    rewrite Hts, bind_normal in H. destruct ts as [|t ts]; [done|].
    destruct (0 <? _); [|done]. simpl in H. destruct (_ && _); [|done].
    destruct (replaceAllWithSpacesExceptCss d (t :: ts) stylesheets) eqn:E; [done|].
    inversion H; subst. by eapply replaceAll_throws.
Qed.

(** What [getStyledJsxUnderCursor] returns is what the masker returned
    for the located templates. *)
Lemma getStyledJsxUnderCursor_some {Stylesheet} createSourceFile d
    (stylesheets : LanguageModelCache Stylesheet) c sj :
  getStyledJsxUnderCursor createSourceFile d stylesheets c = Normal (Some sj) ->
  exists t ts,
    findStyledJsxTaggedTemplate createSourceFile d [c] = Normal (t :: ts)
    /\ replaceAllWithSpacesExceptCss d (t :: ts) stylesheets = Normal sj.
Proof.
  unfold getStyledJsxUnderCursor.
  destruct (findStyledJsxTaggedTemplate createSourceFile d [c]) as [[|t ts]|e];
    simpl; try done.
  destruct (_ && _); [|done].
  destruct (replaceAllWithSpacesExceptCss d (t :: ts) stylesheets) as [sj'|e] eqn:E;
    simpl; [|done].
  intros [= <-]. by exists t, ts.
Qed.

(** X13: completion sees the document of the other features: what
    [getStyledJsxUnderCursor] returns for a cursor is what [getStyledJsx]
    returns, unless the scanner finds no candidate. *)
Theorem cursor_extraction_agrees {Stylesheet} (createSourceFile : Parser)
    (d : TextDocument) (stylesheets : LanguageModelCache Stylesheet) (c : Z)
    (sj : StyledJsx Stylesheet) :
  getStyledJsxUnderCursor createSourceFile d stylesheets c = Normal (Some sj) ->
  getStyledJsx createSourceFile d stylesheets = Normal (Some sj)
  \/ getApproximateStyledJsxOffsets d = [].
Proof.
  intros (t & ts & Hf & Hm)%getStyledJsxUnderCursor_some.
  unfold getStyledJsx. destruct (getApproximateStyledJsxOffsets d) as [|o os] eqn:E;
    [by right | left].
  assert (forall A (a : A) l, (0 <? Z.of_nat (length (a :: l))) = true) as Hpos
    by (intros; apply Z.ltb_lt; simpl; lia).
  rewrite Hpos.
  change (findStyledJsxTaggedTemplate createSourceFile d (o :: os))
    with (findStyledJsxTaggedTemplate createSourceFile d [c]).
  rewrite Hf, bind_normal, Hpos. by rewrite Hm.
Qed.

(** X14: the synthetic document stands for the document: it has its URI
    and its version, its language is [css], and the stylesheet that goes
    with it is the one the cache gives for the synthetic document. *)
Theorem synthetic_document_identity {Stylesheet} (createSourceFile : Parser)
    (d : TextDocument) (stylesheets : LanguageModelCache Stylesheet) (c : Z)
    (sj : StyledJsx Stylesheet) :
  getStyledJsx createSourceFile d stylesheets = Normal (Some sj)
  \/ getStyledJsxUnderCursor createSourceFile d stylesheets c = Normal (Some sj) ->
  uri (cssDocument sj) = uri d
  /\ version (cssDocument sj) = version d
  /\ languageId (cssDocument sj) = "css"%string
  /\ stylesheet sj = cacheGet stylesheets (cssDocument sj).
Proof.
  assert (forall ts, replaceAllWithSpacesExceptCss d ts stylesheets = Normal sj ->
            uri (cssDocument sj) = uri d /\ version (cssDocument sj) = version d
            /\ languageId (cssDocument sj) = "css"%string
            /\ stylesheet sj = cacheGet stylesheets (cssDocument sj)) as Hm.
  { intros ts. unfold replaceAllWithSpacesExceptCss.
    destruct (maskedText (getText d) ts); [|done]. by intros [= <-]. }
  intros [H|H].
  - unfold getStyledJsx in H. destruct (0 <? _); [|done].
    destruct (findStyledJsxTaggedTemplate _ _ _) as [ts|]; [|done].
    rewrite bind_normal in H. destruct (0 <? _); [|done].
    destruct (replaceAllWithSpacesExceptCss d ts stylesheets) eqn:E; [|done].
    inversion H; subst. by eapply Hm.
  - apply getStyledJsxUnderCursor_some in H as (t & ts & _ & H). by eapply Hm.
Qed.

(** ** The locator on any tree *)





(** ** The rule of the locator *)


(** ** What the scanner cannot miss *)

Lemma exec_none r : forall s i a s',
  exec r i s = None -> s = a ++ s' ->
  matcher r (mkState (i + length a) s' []) Some = None.
Proof.
  induction s as [|u s IH]; intros i a s' H Hs; simpl in H.
  - symmetry in Hs. apply app_eq_nil in Hs as [-> ->]. simpl.
    rewrite Nat.add_0_r. by destruct (matcher r (mkState i [] []) Some).
  - destruct (matcher r (mkState i (u :: s) []) Some) eqn:E; [done|].
    destruct a as [|v a]; simpl in Hs.
    + subst s'. simpl. by rewrite Nat.add_0_r.
    + inversion Hs; subst. destruct (exec r (S i) (a ++ s')) eqn:E'; [done|].
      replace (i + length (v :: a))%nat with (S i + length a)%nat by (simpl; lia).
      by eapply IH.
Qed.

Lemma scanner_finds (d : TextDocument) (a b marker : list N) :
  getText d = a ++ marker ++ b ->
  (forall i, matcher styledJsxPattern (mkState i (marker ++ b) []) Some <> None) ->
  exists o os, getApproximateStyledJsxOffsets d = o :: os.
Proof.
  intros Ht Hm. unfold getApproximateStyledJsxOffsets. cbn [scanLoop].
  destruct (execAt styledJsxPattern (getText d) 0) as [m|] eqn:E.
  - destruct (scanLoop_scan (getText d) (length (getText d)) (lastIndex m)
                ([] ++ [Z.of_nat (lastIndex m)])) as (more & -> & _).
    simpl. eauto.
  - exfalso. unfold execAt in E. simpl in E. rewrite drop_0 in E.
    apply (exec_none _ _ _ a (marker ++ b)) in E; [|done]. by apply Hm in E.
Qed.

(** X3: a text that has one of [css`], [css.global`], [css.resolve`],
    [<style jsx>], [<style global jsx>] and [<style jsx global>] in it has a
    candidate offset, and [getStyledJsx] goes on to the locator. *)
Theorem scanner_finds_markers (d : TextDocument) (marker : string) :
  marker ∈ ["css`"; "css.global`"; "css.resolve`"; "<style jsx>";
            "<style global jsx>"; "<style jsx global>"]%string ->
  contains (getText d) (lit marker) ->
  exists o os, getApproximateStyledJsxOffsets d = o :: os.
Proof.
  intros Hm (a & b & H). eapply scanner_finds; [apply H|]. intros i. clear H.
  repeat (apply elem_of_cons in Hm as [->|Hm]); [..|by apply elem_of_nil in Hm];
    (let p := eval vm_compute in styledJsxPattern in change styledJsxPattern with p);
    match goal with |- context [lit ?m] =>
      let l := eval vm_compute in (lit m) in change (lit m) with l end;
    repeat (cbn;
            match goal with
            | |- context [Nat.eqb ?x ?y] =>
                destruct (Nat.eqb_spec x y); [try lia | try lia]
            end);
    done.
Qed.

(** ** The older copy and the tag *)

(** X24: a template that the older copy takes for a tagged styled-jsx
    template, its tag being exactly [css], is one for the newer copy, which
    asks that the tag contain [css]. *)
Theorem legacy_tags_still_accepted (text : list N) (templateNode : Located) :
  Legacy.isStyledJsxTaggedTemplate text templateNode = Normal true ->
  isStyledJsxTaggedTemplate text templateNode = Normal true.
Proof.
  unfold Legacy.isStyledJsxTaggedTemplate, isStyledJsxTaggedTemplate.
  destruct (defined "kind" (parent templateNode)) as [p|]; [|done]. simpl.
  destruct (isTaggedTemplateExpression p); [|done].
  destruct (defined "getText" (tag p)) as [tg|]; [|done]. simpl.
  unfold strEq. destruct (bool_decide_reflect (nodeText text tg = lit "css")) as [->|];
    [|done].
  done.
Qed.

(** ** What the handlers publish and reply *)

Section HandlerEdges.
Context {Stylesheet LanguageSettings Diagnostic Position Range CompletionList
         Hover SymbolInformation Definition_ DocumentHighlight Location
         CodeActionContext CodeAction Color ColorInformation ColorPresentation
         WorkspaceEdit : Type}.
Variable service :
  LanguageService Stylesheet LanguageSettings Diagnostic Position Range
    CompletionList Hover SymbolInformation Definition_ DocumentHighlight
    Location CodeActionContext CodeAction Color ColorInformation
    ColorPresentation WorkspaceEdit.
Variable createSourceFile : Parser.
Variable stylesheets : LanguageModelCache Stylesheet.
Variable offsetAt : TextDocument -> Position -> Z.
Variable documents : gmap string TextDocument.

(** X16: a validation that returns has published one notification, for
    the URI of the document, and has left the pending validations of the
    other documents alone; where the document has no styled-jsx the
    notification carries no diagnostics and the entry of the document in
    [pendingValidationRequests] is removed. *)
Theorem validation_publishes_once (settings : option LanguageSettings)
    (d : TextDocument) (c c' : Connection Diagnostic) :
  validateTextDocument service createSourceFile stylesheets settings d c = Normal c' ->
  (exists diagnostics, published c' = published c ++ [(uri d, diagnostics)])
  /\ (forall u, u <> uri d ->
        pendingValidationRequests c' !! u = pendingValidationRequests c !! u)
  /\ (getStyledJsx createSourceFile d stylesheets = Normal None ->
      published c' = published c ++ [(uri d, [])]
      /\ pendingValidationRequests c' !! uri d = None).
Proof.
  unfold validateTextDocument.
  destruct (getStyledJsx createSourceFile d stylesheets) as [[sj|]|e]; [| |done];
    intros [= <-]; simpl.
  - split; [by eexists|]. split; [done|]. done.
  - unfold cleanPendingValidation.
    destruct (pendingValidationRequests c !! uri d) eqn:E; simpl.
    + split; [by eexists|]. split.
      * intros u Hu. by rewrite lookup_delete_ne.
      * intros _. split; [done|]. by rewrite lookup_delete_eq.
    + split; [by eexists|]. split; [done|]. done.
Qed.

(** X17: a request for a document that is not open is answered without
    the parser and the CSS service: completion answers [undefined], the two
    colour requests an empty list, every other request [null]. *)
Theorem closed_document_replies (u : string) (position : Position) (range : Range)
    (context : CodeActionContext) (color : Color) (newName : string) :
  documents !! u = None ->
  onCompletion service createSourceFile stylesheets offsetAt documents u position
  = Normal Undefined
  /\ onHover service createSourceFile stylesheets documents u position = Normal Null
  /\ onDocumentSymbol service createSourceFile stylesheets documents u = Normal Null
  /\ onDefinition service createSourceFile stylesheets documents u position = Normal Null
  /\ onDocumentHighlight service createSourceFile stylesheets documents u position
     = Normal Null
  /\ onReferences service createSourceFile stylesheets documents u position = Normal Null
  /\ onCodeAction service createSourceFile stylesheets documents u range context
     = Normal Null
  /\ onDocumentColor service createSourceFile stylesheets documents u = Normal (Result [])
  /\ onColorPresentation service createSourceFile stylesheets documents u color range
     = Normal (Result [])
  /\ onRenameRequest service createSourceFile stylesheets documents u position newName
     = Normal Null.
Proof.
  intros H.
  unfold onCompletion, onHover, onDocumentSymbol, onDefinition, onDocumentHighlight,
    onReferences, onCodeAction, onDocumentColor, onColorPresentation, onRenameRequest,
    withStyledJsx.
  rewrite H. repeat split.
Qed.

End HandlerEdges.

(** ** The capabilities of the client *)

(** X18: [onInitialize] returns only for a client whose capabilities have
    both a [textDocument] and a [workspace] section: it reads
    [textDocument.completion.completionItem.snippetSupport] and
    [workspace.configuration] with no test on the way, and a section that is
    [undefined] or [null] raises a [TypeError]. *)
Theorem initialize_needs_both_sections (capabilities : JsValue)
    (result : ServerCapabilities * bool) (key : string) :
  onInitialize capabilities = Normal result ->
  key = "textDocument"%string \/ key = "workspace"%string ->
  exists section,
    getProperty capabilities key = Normal section
    /\ section <> JsUndefined /\ section <> JsNull.
Proof.
  unfold onInitialize. intros H Hkey.
  apply bind_inv in H as (snippetSupport & H1 & H).
  apply bind_inv in H as (scoped & H2 & _).
  cbn [hasClientCapability] in H1, H2.
  apply bind_inv in H1 as (td & Htd & H1). apply bind_inv in H1 as (co & Hco & _).
  apply bind_inv in H2 as (ws & Hws & H2). apply bind_inv in H2 as (cf & Hcf & _).
  destruct Hkey as [-> | ->].
  - exists td. split; [done|]. by destruct td.
  - exists ws. split; [done|]. by destruct ws.
Qed.

(** ** Timers and settings *)

Section LifecycleProperties.
Context {Stylesheet LanguageSettings Diagnostic Position Range CompletionList
         Hover SymbolInformation Definition_ DocumentHighlight Location
         CodeActionContext CodeAction Color ColorInformation ColorPresentation
         WorkspaceEdit : Type}.
Variable service :
  LanguageService Stylesheet LanguageSettings Diagnostic Position Range
    CompletionList Hover SymbolInformation Definition_ DocumentHighlight
    Location CodeActionContext CodeAction Color ColorInformation
    ColorPresentation WorkspaceEdit.
Variable createSourceFile : Parser.
Variable stylesheets : LanguageModelCache Stylesheet.

Lemma consistent_initial (scoped : bool) :
  Lifecycle.consistent
    (Lifecycle.initial scoped : Lifecycle.Server LanguageSettings Diagnostic).
Proof. split; intros ? ?; simpl; by rewrite lookup_empty. Qed.

(** The timers and the table agree on the document of a URI. *)
Lemma consistent_timer (s : Lifecycle.Server LanguageSettings Diagnostic) t d :
  Lifecycle.consistent s -> Lifecycle.timers s !! t = Some d ->
  pendingValidationRequests (Lifecycle.connection s) !! uri d = Some t.
Proof. intros [_ H2] Ht. by apply H2. Qed.

Lemma cleanPendingValidation_spec (d : TextDocument)
    (s : Lifecycle.Server LanguageSettings Diagnostic) :
  Lifecycle.consistent s ->
  let s' := Lifecycle.cleanPendingValidation d s in
  Lifecycle.consistent s'
  /\ pendingValidationRequests (Lifecycle.connection s') !! uri d = None
  /\ (forall u, u <> uri d ->
        pendingValidationRequests (Lifecycle.connection s') !! u
        = pendingValidationRequests (Lifecycle.connection s) !! u)
  /\ (forall t d', Lifecycle.timers s' !! t = Some d' <->
                   Lifecycle.timers s !! t = Some d' /\ uri d' <> uri d)
  /\ Lifecycle.nextTimer s' = Lifecycle.nextTimer s
  /\ published (Lifecycle.connection s') = published (Lifecycle.connection s)
  /\ Lifecycle.documentSettings s' = Lifecycle.documentSettings s
  /\ Lifecycle.configurationRequests s' = Lifecycle.configurationRequests s
  /\ Lifecycle.scopedSettingsSupport s' = Lifecycle.scopedSettingsSupport s
  /\ Lifecycle.configured s' = Lifecycle.configured s.
Proof.
  intros [H1 H2]. cbv zeta. unfold Lifecycle.cleanPendingValidation.
  destruct (pendingValidationRequests (Lifecycle.connection s) !! uri d)
    as [request|] eqn:E.
  - unfold cleanPendingValidation, Lifecycle.withConnection, Lifecycle.clearTimeout.
    rewrite E. unfold Lifecycle.consistent. cbn.
    destruct (H1 _ _ E) as (d0 & Hd0 & Hu0).
    assert (forall t d', Lifecycle.timers s !! t = Some d' ->
              (t = request <-> uri d' = uri d)) as Hkey.
    { intros t d' Ht. destruct (H2 _ _ Ht) as [Hp _]. split.
      - intros ->. congruence.
      - intros Hu. rewrite Hu in Hp. congruence. }
    split; [split|repeat split; try done].
    + intros u t Hp. apply lookup_delete_Some in Hp as [Hne Hp].
      destruct (H1 _ _ Hp) as (d' & Hd' & Hu'). exists d'. split; [|done].
      apply lookup_delete_Some. split; [|done]. intros <-.
      apply Hne. rewrite <- Hu'. symmetry. by apply (Hkey request d').
    + intros t d' Ht. apply lookup_delete_Some in Ht as [Hne Ht].
      destruct (H2 _ _ Ht) as [Hp Hlt]. split; [|done].
      apply lookup_delete_Some. split; [|done]. intros Hu. apply Hne.
      symmetry. by apply (Hkey t d').
    + by rewrite lookup_delete_eq.
    + intros u Hu. by rewrite lookup_delete_ne.
    + by apply lookup_delete_Some in H as [_ ?].
    + apply lookup_delete_Some in H as [Hne Ht]. intros Hu. apply Hne.
      symmetry. by apply (Hkey t d').
    + intros [Ht Hu]. apply lookup_delete_Some. split; [|done]. intros <-.
      apply Hu. by apply (Hkey request d').
  - split; [done|]. repeat split; try done.
    + intros Hu. apply H2 in H as [Hp _]. rewrite Hu in Hp. congruence.
    + by intros [? _].
Qed.

Lemma triggerValidation_spec (d : TextDocument)
    (s : Lifecycle.Server LanguageSettings Diagnostic) :
  Lifecycle.consistent s ->
  let s' := Lifecycle.triggerValidation d s in
  Lifecycle.consistent s'
  /\ pendingValidationRequests (Lifecycle.connection s') !! uri d
     = Some (Lifecycle.nextTimer s)
  /\ (forall t d', Lifecycle.timers s' !! t = Some d' <->
                   (t = Lifecycle.nextTimer s /\ d' = d)
                   \/ (Lifecycle.timers s !! t = Some d' /\ uri d' <> uri d))
  /\ Lifecycle.nextTimer s' = S (Lifecycle.nextTimer s)
  /\ published (Lifecycle.connection s') = published (Lifecycle.connection s)
  /\ Lifecycle.documentSettings s' = Lifecycle.documentSettings s
  /\ Lifecycle.configurationRequests s' = Lifecycle.configurationRequests s
  /\ Lifecycle.scopedSettingsSupport s' = Lifecycle.scopedSettingsSupport s
  /\ Lifecycle.configured s' = Lifecycle.configured s.
Proof.
  intros Hs. cbv zeta.
  destruct (cleanPendingValidation_spec d s Hs)
    as ([C1 C2] & Hnone & Hother & Htimers & Hnext & Hpub & Hset & Hreq & Hsc & Hcf).
  unfold Lifecycle.triggerValidation, Lifecycle.setTimeout, Lifecycle.withConnection,
    Lifecycle.consistent.
  set (s1 := Lifecycle.cleanPendingValidation d s) in *. cbn.
  assert (forall t d', Lifecycle.timers s1 !! t = Some d' -> t <> Lifecycle.nextTimer s1)
    as Hfresh.
  { intros t d' Ht. apply C2 in Ht as [_ ?]. lia. }
  split; [split|repeat split; try done].
  - intros u t Hp. apply lookup_insert_Some in Hp as [[<- <-]|[Hne Hp]].
    + exists d. by rewrite lookup_insert_eq.
    + destruct (C1 _ _ Hp) as (d' & Hd' & Hu'). exists d'. split; [|done].
      rewrite lookup_insert_ne; [done|]. intros <-. by eapply Hfresh.
  - intros t d' Ht. apply lookup_insert_Some in Ht as [[<- <-]|[Hne Ht]].
    + rewrite lookup_insert_eq. split; [done | lia].
    + destruct (C2 _ _ Ht) as [Hp Hlt]. split; [|lia].
      rewrite lookup_insert_ne; [done|]. intros Hu. rewrite <- Hu in Hp. congruence.
  - rewrite lookup_insert_eq. by rewrite Hnext.
  - intros Ht. apply lookup_insert_Some in Ht as [[<- <-]|[Hne Ht]].
    + left. by rewrite Hnext.
    + right. by apply Htimers.
  - intros [[-> ->]|Ht].
    + rewrite <- Hnext. by rewrite lookup_insert_eq.
    + apply Htimers in Ht. rewrite lookup_insert_ne; [done|]. intros <-.
      by eapply Hfresh.
  - by rewrite Hnext.
Qed.

(** [getDocumentSettings] touches neither the timers nor what was
    published. *)
Lemma getDocumentSettings_frame (d : TextDocument)
    (s : Lifecycle.Server LanguageSettings Diagnostic) :
  let s' := (Lifecycle.getDocumentSettings d s).2 in
  Lifecycle.connection s' = Lifecycle.connection s
  /\ Lifecycle.timers s' = Lifecycle.timers s
  /\ Lifecycle.nextTimer s' = Lifecycle.nextTimer s
  /\ Lifecycle.scopedSettingsSupport s' = Lifecycle.scopedSettingsSupport s
  /\ Lifecycle.configured s' = Lifecycle.configured s.
Proof.
  cbv zeta. unfold Lifecycle.getDocumentSettings.
  destruct (Lifecycle.scopedSettingsSupport s) eqn:E; [|done].
  by destruct (Lifecycle.documentSettings s !! uri d).
Qed.

Lemma consistent_ext (s s' : Lifecycle.Server LanguageSettings Diagnostic) :
  Lifecycle.consistent s ->
  pendingValidationRequests (Lifecycle.connection s')
  = pendingValidationRequests (Lifecycle.connection s) ->
  Lifecycle.timers s' = Lifecycle.timers s ->
  Lifecycle.nextTimer s' = Lifecycle.nextTimer s ->
  Lifecycle.consistent s'.
Proof. unfold Lifecycle.consistent. by intros H -> -> ->. Qed.

Lemma onTimeout_consistent (request : nat)
    (s : Lifecycle.Server LanguageSettings Diagnostic) :
  Lifecycle.consistent s -> Lifecycle.consistent (Lifecycle.onTimeout request s).
Proof.
  intros [H1 H2]. unfold Lifecycle.onTimeout.
  destruct (Lifecycle.timers s !! request) as [d|] eqn:E; [|done].
  match goal with |- Lifecycle.consistent (Lifecycle.getDocumentSettings d ?x).2 =>
    set (s2 := x) end.
  destruct (getDocumentSettings_frame d s2) as (Hc & Ht & Hn & _).
  eapply consistent_ext; [|by rewrite Hc|done..].
  destruct (H2 _ _ E) as [Hp _].
  assert (forall t d', Lifecycle.timers s !! t = Some d' ->
            (t = request <-> uri d' = uri d)) as Hkey.
  { intros t d' Ht'. destruct (H2 _ _ Ht') as [Hp' _]. split.
    - intros ->. congruence.
    - intros Hu. rewrite Hu in Hp'. congruence. }
  subst s2. unfold Lifecycle.consistent, Lifecycle.withConnection, Lifecycle.clearTimeout.
  cbn. split.
  - intros u t Hp'. apply lookup_delete_Some in Hp' as [Hne Hp'].
    destruct (H1 _ _ Hp') as (d' & Hd' & Hu'). exists d'. split; [|done].
    apply lookup_delete_Some. split; [|done]. intros <-.
    apply Hne. rewrite <- Hu'. symmetry. by apply (Hkey request d').
  - intros t d' Ht'. apply lookup_delete_Some in Ht' as [Hne Ht'].
    destruct (H2 _ _ Ht') as [Hp' Hlt]. split; [|done].
    apply lookup_delete_Some. split; [|done]. intros Hu. apply Hne.
    symmetry. by apply (Hkey t d').
Qed.

Lemma clearDiagnostics_consistent (d : TextDocument)
    (s : Lifecycle.Server LanguageSettings Diagnostic) :
  Lifecycle.consistent s -> Lifecycle.consistent (Lifecycle.clearDiagnostics d s).
Proof.
  intros Hs. destruct (cleanPendingValidation_spec d s Hs) as (Hc & _).
  by eapply consistent_ext.
Qed.

Lemma onDidClose_consistent (d : TextDocument)
    (s : Lifecycle.Server LanguageSettings Diagnostic) :
  Lifecycle.consistent s -> Lifecycle.consistent (Lifecycle.onDidClose d s).
Proof.
  intros Hs. unfold Lifecycle.onDidClose. apply clearDiagnostics_consistent.
  by eapply consistent_ext.
Qed.

Lemma updateConfiguration_consistent settings (all : list TextDocument)
    (s : Lifecycle.Server LanguageSettings Diagnostic) :
  Lifecycle.consistent s ->
  Lifecycle.consistent (Lifecycle.updateConfiguration settings all s).
Proof.
  intros Hs. unfold Lifecycle.updateConfiguration.
  match goal with |- Lifecycle.consistent (foldl _ ?x _) =>
    assert (Lifecycle.consistent x) as H1 by (by eapply consistent_ext);
    generalize dependent x end.
  induction all as [|d all IH]; intros s1 H1; simpl; [done|].
  apply IH. by apply triggerValidation_spec.
Qed.

Lemma step_consistent
    (s : Lifecycle.Server LanguageSettings Diagnostic)
    (e : Lifecycle.Event LanguageSettings) :
  Lifecycle.consistent s ->
  Lifecycle.consistent (Lifecycle.step service createSourceFile stylesheets s e).
Proof.
  intros Hs. destruct e as [d|d|t|settings d|settings all]; simpl.
  - by apply triggerValidation_spec.
  - by apply onDidClose_consistent.
  - by apply onTimeout_consistent.
  - unfold Lifecycle.onSettings.
    destruct (getStyledJsx createSourceFile d stylesheets) as [[sj|]|e]; simpl.
    + by eapply consistent_ext.
    + by apply clearDiagnostics_consistent.
    + done.
  - by apply updateConfiguration_consistent.
Qed.

Lemma run_consistent (events : list (Lifecycle.Event LanguageSettings)) :
  forall s : Lifecycle.Server LanguageSettings Diagnostic,
  Lifecycle.consistent s ->
  Lifecycle.consistent (Lifecycle.run service createSourceFile stylesheets events s).
Proof.
  induction events as [|e events IH]; intros s Hs; simpl; [done|].
  apply IH. by apply step_consistent.
Qed.

Lemma reachable_consistent (events : list (Lifecycle.Event LanguageSettings))
    (scoped : bool) :
  Lifecycle.consistent
    (Lifecycle.run service createSourceFile stylesheets events
       (Lifecycle.initial scoped)).
Proof. apply run_consistent, consistent_initial. Qed.

(** X19: whatever happens to the server, the table of pending
    validations and the armed timers agree, and no two armed timers are
    for the same URI: a document has at most one validation pending. *)
Theorem one_timer_per_document (events : list (Lifecycle.Event LanguageSettings))
    (scoped : bool) :
  let s :=
    Lifecycle.run service createSourceFile stylesheets events
      (Lifecycle.initial scoped) in
  (forall u t, pendingValidationRequests (Lifecycle.connection s) !! u = Some t <->
               exists d, Lifecycle.timers s !! t = Some d /\ uri d = u)
  /\ (forall t1 t2 d1 d2,
        Lifecycle.timers s !! t1 = Some d1 -> Lifecycle.timers s !! t2 = Some d2 ->
        uri d1 = uri d2 -> t1 = t2).
Proof.
  cbv zeta. destruct (reachable_consistent events scoped) as [H1 H2]. split.
  - intros u t. split; [apply H1|]. intros (d & Ht & <-). by apply H2.
  - intros t1 t2 d1 d2 Ht1 Ht2 Hu. apply H2 in Ht1 as [Hp1 _].
    apply H2 in Ht2 as [Hp2 _]. rewrite Hu in Hp1. congruence.
Qed.

(** X20: a change of content replaces the pending validation of the
    document: afterwards one timer is armed for its URI, it is the one in
    the table and it validates the new content; the timers of the other
    documents stay, and nothing is published. *)
Theorem change_replaces_pending_validation
    (events : list (Lifecycle.Event LanguageSettings))
    (scoped : bool) (d : TextDocument) :
  let s :=
    Lifecycle.run service createSourceFile stylesheets events
      (Lifecycle.initial scoped) in
  let s' := Lifecycle.onDidChangeContent d s in
  exists t,
    Lifecycle.timers s' !! t = Some d
    /\ pendingValidationRequests (Lifecycle.connection s') !! uri d = Some t
    /\ Lifecycle.timers s !! t = None
    /\ (forall t' d', Lifecycle.timers s' !! t' = Some d' -> uri d' = uri d ->
                      t' = t /\ d' = d)
    /\ (forall t' d', uri d' <> uri d ->
          (Lifecycle.timers s' !! t' = Some d' <-> Lifecycle.timers s !! t' = Some d'))
    /\ published (Lifecycle.connection s') = published (Lifecycle.connection s).
Proof.
  cbv zeta. pose proof (reachable_consistent events scoped) as Hs.
  set (s := Lifecycle.run _ _ _ _ _) in *.
  destruct (triggerValidation_spec d s Hs) as (_ & Hp & Ht & _ & Hpub & _).
  unfold Lifecycle.onDidChangeContent. exists (Lifecycle.nextTimer s).
  split; [apply Ht; by left|]. split; [done|]. split.
  { destruct (Lifecycle.timers s !! Lifecycle.nextTimer s) as [d0|] eqn:E; [|done].
    destruct Hs as [_ H2]. apply H2 in E as [_ ?]. lia. }
  split; [|split; [|done]].
  - intros t' d' Ht' Hu. by apply Ht in Ht' as [?|[_ ?]].
  - intros t' d' Hu. rewrite Ht. split.
    + by intros [[_ ->]|[? _]].
    + intros ?. by right.
Qed.

(** X21: closing a document cancels its pending validation, forgets its
    settings and publishes an empty list of diagnostics for it; the timers
    of the other documents stay. *)
Theorem close_cancels_validation (events : list (Lifecycle.Event LanguageSettings))
    (scoped : bool)
    (d : TextDocument) :
  let s :=
    Lifecycle.run service createSourceFile stylesheets events
      (Lifecycle.initial scoped) in
  let s' := Lifecycle.onDidClose d s in
  pendingValidationRequests (Lifecycle.connection s') !! uri d = None
  /\ (forall t d', Lifecycle.timers s' !! t = Some d' <->
                   Lifecycle.timers s !! t = Some d' /\ uri d' <> uri d)
  /\ Lifecycle.documentSettings s' !! uri d = None
  /\ published (Lifecycle.connection s')
     = published (Lifecycle.connection s) ++ [(uri d, [])].
Proof.
  cbv zeta. pose proof (reachable_consistent events scoped) as Hs.
  set (s := Lifecycle.run _ _ _ _ _) in *.
  unfold Lifecycle.onDidClose, Lifecycle.clearDiagnostics.
  set (s1 := Lifecycle.withDocumentSettings _ s).
  assert (Lifecycle.consistent s1) as Hs1 by (by eapply consistent_ext).
  destruct (cleanPendingValidation_spec d s1 Hs1)
    as (_ & Hnone & _ & Htimers & _ & Hpub & Hset & _).
  cbn. split; [done|]. split; [done|]. split.
  - rewrite Hset. unfold s1. cbn. by rewrite lookup_delete_eq.
  - by rewrite Hpub.
Qed.

(** X22: the settings of a document are requested once: a second call
    of [getDocumentSettings] for the URI returns the promise of the first
    and sends no request; without scoped settings no request is sent at
    all. *)
Theorem settings_are_requested_once
    (s : Lifecycle.Server LanguageSettings Diagnostic) (d : TextDocument)
    (language : string) (v : Z) (text : list N) :
  let later := mkDocument (uri d) language v text in
  Lifecycle.getDocumentSettings later (Lifecycle.getDocumentSettings d s).2
  = ((Lifecycle.getDocumentSettings d s).1, (Lifecycle.getDocumentSettings d s).2)
  /\ (Lifecycle.scopedSettingsSupport s = false ->
      Lifecycle.getDocumentSettings d s = (Resolved, s))
  /\ (length (Lifecycle.configurationRequests (Lifecycle.getDocumentSettings d s).2)
      <= S (length (Lifecycle.configurationRequests s)))%nat.
Proof.
  cbv zeta. unfold Lifecycle.getDocumentSettings.
  destruct (Lifecycle.scopedSettingsSupport s) eqn:E; cbn.
  - destruct (Lifecycle.documentSettings s !! uri d) as [p|] eqn:Ep; cbn.
    + rewrite E, Ep. split; [done|]. split; [done | lia].
    + rewrite lookup_insert_eq. split; [done|]. split; [done|].
      rewrite length_app. simpl. lia.
  - rewrite E. split; [done|]. split; [done | lia].
Qed.

Lemma revalidate_all (all : list TextDocument) :
  forall s : Lifecycle.Server LanguageSettings Diagnostic,
  Lifecycle.consistent s ->
  let s' := foldl (fun s d => Lifecycle.triggerValidation d s) s all in
  Lifecycle.consistent s'
  /\ Lifecycle.documentSettings s' = Lifecycle.documentSettings s
  /\ Lifecycle.configured s' = Lifecycle.configured s
  /\ published (Lifecycle.connection s') = published (Lifecycle.connection s)
  /\ forall d, d ∈ all ->
       exists t d', Lifecycle.timers s' !! t = Some d' /\ uri d' = uri d /\ d' ∈ all.
Proof.
  induction all as [|d all IH] using rev_ind; intros s Hs; cbv zeta.
  { simpl. do 4 (split; [done|]). intros d Hd. by apply elem_of_nil in Hd. }
  rewrite foldl_app. cbn [foldl].
  destruct (IH s Hs) as (Hc & Hset & Hcf & Hpub & Hall).
  set (s1 := foldl _ s all) in *.
  destruct (triggerValidation_spec d s1 Hc)
    as (Hc' & _ & Ht & _ & Hpub' & Hset' & _ & _ & Hcf').
  split; [done|]. split; [congruence|]. split; [congruence|]. split; [congruence|].
  intros d0 Hd0. destruct (decide (uri d0 = uri d)) as [Hu|Hu].
  - exists (Lifecycle.nextTimer s1), d. split; [apply Ht; by left|]. split; [done|].
    apply elem_of_app. right. by apply list_elem_of_singleton.
  - apply elem_of_app in Hd0 as [Hd0|Hd0].
    2:{ apply list_elem_of_singleton in Hd0. by subst. }
    destruct (Hall _ Hd0) as (t & d' & Ht' & Hu' & Hin).
    exists t, d'. split; [|split; [done|]].
    + apply Ht. right. split; [done|]. congruence.
    + apply elem_of_app. by left.
Qed.

(** X23: a change of configuration forgets the settings of every
    document and arms a validation for every open document; it publishes
    nothing itself. *)
Theorem configuration_change_revalidates
    (events : list (Lifecycle.Event LanguageSettings))
    (scoped : bool) (settings : LanguageSettings) (all : list TextDocument) :
  let s :=
    Lifecycle.run service createSourceFile stylesheets events
      (Lifecycle.initial scoped) in
  let s' := Lifecycle.updateConfiguration settings all s in
  Lifecycle.documentSettings s' = ∅
  /\ Lifecycle.configured s' = Some settings
  /\ published (Lifecycle.connection s') = published (Lifecycle.connection s)
  /\ forall d, d ∈ all ->
       exists t d', Lifecycle.timers s' !! t = Some d' /\ uri d' = uri d /\ d' ∈ all.
Proof.
  cbv zeta. pose proof (reachable_consistent events scoped) as Hs.
  set (s := Lifecycle.run _ _ _ _ _) in *. unfold Lifecycle.updateConfiguration.
  match goal with |- context [foldl _ ?x all] => set (s1 := x) end.
  assert (Lifecycle.consistent s1) as Hs1 by (by eapply consistent_ext).
  by destruct (revalidate_all all s1 Hs1) as (_ & -> & -> & -> & Hall).
Qed.

End LifecycleProperties.

(** ** The further theorems on the sample files *)

(** The first candidate of [css`a`;css`bc`], after the first backtick. *)
Lemma offsets_follow_openers_witness :
  getText (document twoText) !! Z.to_nat (4 - 1) = Some 96%N
  \/ getText (document twoText) !! Z.to_nat (4 - 1) = Some 62%N.
Proof.
  apply (offsets_follow_openers (document twoText) 4).
  change (getApproximateStyledJsxOffsets (document twoText)) with [4; 11].
  apply list_elem_of_here.
Defined.

(** [css`a`;css`bc`] has [css`] at its start. *)
Lemma scanner_finds_markers_witness :
  exists o os, getApproximateStyledJsxOffsets (document twoText) = o :: os.
Proof.
  apply (scanner_finds_markers (document twoText) "css`").
  - apply list_elem_of_here.
  - exists [], (lit "a`;css`bc`"). reflexivity.
Defined.



(** The file with a line feed before its template. *)
Lemma replaceAll_length_witness :
  length (getText (cssDocument (synthetic newlineDocument [mkTemplate 6 7])))
  = length (getText newlineDocument).
Proof.
  apply (replaceAll_length newlineDocument [mkTemplate 6 7] sampleCache
           (synthetic newlineDocument [mkTemplate 6 7])).
  - cbn. lia.
  - reflexivity.
Defined.

Lemma line_terminators_stay_witness :
  isLineTerminator <$> getText (cssDocument (synthetic newlineDocument [mkTemplate 6 7]))
  = isLineTerminator <$> getText newlineDocument.
Proof.
  apply (line_terminators_stay newlineDocument [mkTemplate 6 7] sampleCache
           (synthetic newlineDocument [mkTemplate 6 7])).
  - cbn. lia.
  - reflexivity.
Defined.

(** Offset 6 of that file, the [b] of the template. *)
Lemma inside_template_masked_witness :
  let spans := expressionSpans (slice (getText newlineDocument) 6 7) in
  (inSpan (6 - Z.to_nat 6) spans ->
   getText (cssDocument (synthetic newlineDocument [mkTemplate 6 7])) !! 6%nat
   = Some SPACE)
  /\ (~ inSpan (6 - Z.to_nat 6) spans ->
      getText (cssDocument (synthetic newlineDocument [mkTemplate 6 7])) !! 6%nat
      = Some 98%N).
Proof.
  apply (inside_template_masked newlineDocument [mkTemplate 6 7] sampleCache
           (synthetic newlineDocument [mkTemplate 6 7]) (mkTemplate 6 7) 6 98%N).
  - cbn. lia.
  - reflexivity.
  - apply list_elem_of_here.
  - cbn. lia.
  - reflexivity.
Defined.

(** The templates of [css`a`;css`bc`] have no operator. *)
Lemma masker_returns_without_operators_witness :
  exists sj,
    replaceAllWithSpacesExceptCss (document twoText) [mkTemplate 4 5; mkTemplate 11 13]
      sampleCache = Normal sj.
Proof.
  apply (masker_returns_without_operators (document twoText)
           [mkTemplate 4 5; mkTemplate 11 13] sampleCache).
  - discriminate.
  - repeat constructor.
Defined.

(** The cursor inside the template of [<style jsx>{`a{}`}</style>]. *)
Lemma cursor_extraction_agrees_witness :
  getStyledJsx sampleParser (document styleText) sampleCache
  = Normal (Some (synthetic (document styleText) [mkTemplate 13 16]))
  \/ getApproximateStyledJsxOffsets (document styleText) = [].
Proof.
  apply (cursor_extraction_agrees sampleParser (document styleText) sampleCache 14).
  reflexivity.
Defined.

Lemma synthetic_document_identity_witness :
  uri (cssDocument (synthetic (document styleText) [mkTemplate 13 16]))
  = uri (document styleText)
  /\ version (cssDocument (synthetic (document styleText) [mkTemplate 13 16]))
     = version (document styleText)
  /\ languageId (cssDocument (synthetic (document styleText) [mkTemplate 13 16]))
     = "css"%string
  /\ stylesheet (synthetic (document styleText) [mkTemplate 13 16])
     = cacheGet sampleCache
         (cssDocument (synthetic (document styleText) [mkTemplate 13 16])).
Proof.
  apply (synthetic_document_identity sampleParser (document styleText) sampleCache 14).
  left. reflexivity.
Defined.

(** The extraction of [css`a&&b`]. *)
Lemma extraction_raises_only_the_masker_error_witness :
  TypeError "replace" = TypeError "replace".
Proof.
  apply (extraction_raises_only_the_masker_error sampleParser (document operatorText)
           sampleCache 0).
  left. vm_compute. reflexivity.
Defined.

(** The validation of [const x = 1;]. *)
Lemma validation_publishes_once_witness :
  exists diagnostics : list string,
    published (mkConnection (Diagnostic := string) ∅ [("file:///a.jsx"%string, [])])
    = published (mkConnection (Diagnostic := string) ∅ [])
      ++ [(uri (document plainText), diagnostics)].
Proof.
  refine (proj1 (validation_publishes_once sampleService sampleParser sampleCache None
                   (document plainText) (mkConnection ∅ [])
                   (mkConnection ∅ [("file:///a.jsx"%string, [])]) _)).
  vm_compute. reflexivity.
Defined.

(** No document is open. *)
Lemma closed_document_replies_witness :
  onCompletion sampleService sampleParser sampleCache sampleOffsetAt ∅ "file:///a.jsx" 0
  = Normal Undefined
  /\ onHover sampleService sampleParser sampleCache ∅ "file:///a.jsx" 0 = Normal Null
  /\ onDocumentSymbol sampleService sampleParser sampleCache ∅ "file:///a.jsx"
     = Normal Null
  /\ onDefinition sampleService sampleParser sampleCache ∅ "file:///a.jsx" 0
     = Normal Null
  /\ onDocumentHighlight sampleService sampleParser sampleCache ∅ "file:///a.jsx" 0
     = Normal Null
  /\ onReferences sampleService sampleParser sampleCache ∅ "file:///a.jsx" 0
     = Normal Null
  /\ onCodeAction sampleService sampleParser sampleCache ∅ "file:///a.jsx" 0 tt
     = Normal Null
  /\ onDocumentColor sampleService sampleParser sampleCache ∅ "file:///a.jsx"
     = Normal (Result [])
  /\ onColorPresentation sampleService sampleParser sampleCache ∅ "file:///a.jsx" tt 0
     = Normal (Result [])
  /\ onRenameRequest sampleService sampleParser sampleCache ∅ "file:///a.jsx" 0 "x"
     = Normal Null.
Proof.
  apply (closed_document_replies sampleService sampleParser sampleCache sampleOffsetAt
           ∅ "file:///a.jsx" 0 0 tt tt "x").
  apply lookup_empty.
Defined.

(** A client with both sections. *)
Lemma initialize_needs_both_sections_witness :
  exists section,
    getProperty sampleCapabilities "workspace" = Normal section
    /\ section <> JsUndefined /\ section <> JsNull.
Proof.
  apply (initialize_needs_both_sections sampleCapabilities
           (mkCapabilities SyncFull (Some (mkCompletionOptions false))
                           true true true true true true false true, true)
           "workspace").
  - reflexivity.
  - right. reflexivity.
Defined.

(** The first template of [css`a`;css`bc`]. *)
Lemma legacy_tags_still_accepted_witness :
  isStyledJsxTaggedTemplate (lit twoText)
    (mkLocated (token NoSubstitutionTemplateLiteral 3 6)
       [ tagged 0 6 [ token Identifier 0 3; token NoSubstitutionTemplateLiteral 3 6 ] ])
  = Normal true.
Proof. apply legacy_tags_still_accepted. reflexivity. Defined.

